(** * RigelEngine physics system: movement and collision resolution

    A shallow embedding of [src/engine/physics_system.cpp]
    ([toWorldSpace], [PhysicsSystem::update], [applyHorizontalMovement],
    [applyGravity], [applyVerticalMovement]) together with the properties
    its specification states about it.

    Conventions of the embedding:
    - [int] coordinates are [Z]; signed overflow is undefined behaviour in
      the source and is outside the model (coordinates are unbounded here);
    - [float] is IEEE-754 binary32, given by the Standard Library's
      executable [SpecFloat] operations at precision 24 and [emax] 128;
    - [static_cast<int16_t>] of a float truncates toward zero and is
      undefined outside the range of [int16_t]: it returns an [option];
    - the [for] loops run [std::abs(movement)] times and are structural
      recursions on the number of iterations that remain. *)

From Stdlib Require Import ZArith Bool List Lia.
From Stdlib Require Import Floats.SpecFloat.
From stdpp Require Import base option list.

Local Open Scope Z_scope.

(** ** IEEE-754 binary32, the source's [float] *)

Module f32.
Definition prec : Z := 24.
Definition emax : Z := 128.

Definition float := spec_float.

Definition valid (f : float) : bool := valid_binary prec emax f.

Definition add : float -> float -> float := SFadd prec emax.
Definition div : float -> float -> float := SFdiv prec emax.
Definition eqb : float -> float -> bool := SFeqb.
Definition ltb : float -> float -> bool := SFltb.
Definition leb : float -> float -> bool := SFleb.

(** Conversion of an integer literal, correctly rounded. *)
Definition of_Z (n : Z) : float := binary_normalize prec emax n 0 false.

(** The literals of the source: [0.0f], [1.0f], [2.0f], and [0.56f],
    the binary32 number nearest to 56/100. *)
Definition zero : float := S754_zero false.
Definition one : float := Eval vm_compute in of_Z 1.
Definition two : float := Eval vm_compute in of_Z 2.
Definition c0_56 : float := Eval vm_compute in div (of_Z 56) (of_Z 100).

(** Integer part of a float, rounding toward zero; [None] for
    infinities and NaN. *)
Definition trunc (f : float) : option Z :=
  match f with
  | S754_zero _ => Some 0
  | S754_finite s m e =>
      Some (cond_Zopp s
              (match e with
               | Zneg k => Z.shiftr (Zpos m) (Zpos k)
               | _ => Z.shiftl (Zpos m) e
               end))
  | _ => None
  end.

(** [static_cast<std::int16_t>(f)]: defined only when the truncated
    value is representable. *)
Definition to_int16 (f : float) : option Z :=
  match trunc f with
  | Some t => if (-32768 <=? t) && (t <=? 32767) then Some t else None
  | None => None
  end.
End f32.

(** ** Geometry: [base::Point<T>], [base::Vector], [base::Rect<int>] *)

Module base.
Record Point (T : Type) := mkPoint { x : T; y : T }.
Arguments mkPoint {T} _ _.
Arguments x {T} _.
Arguments y {T} _.

Definition Vector := Point Z.

Record Size := mkSize { width : Z; height : Z }.

Record Rect := mkRect { topLeft : Vector; size : Size }.

(** [operator+] on vectors, [operator==] and its negation. *)
Definition add (a b : Vector) : Vector := mkPoint (x a + x b) (y a + y b).
Definition sub (a b : Vector) : Vector := mkPoint (x a - x b) (y a - y b).
Definition eqb (a b : Vector) : bool := (x a =? x b) && (y a =? y b).
Definition neqb (a b : Vector) : bool := negb (eqb a b).

(** [Rect + Vector]: the rectangle moved by the vector. *)
Definition translate (r : Rect) (v : Vector) : Rect :=
  mkRect (add (topLeft r) v) (size r).

(** [r.topLeft.x += d] and [r.topLeft.y += d]. *)
Definition moveX (r : Rect) (d : Z) : Rect :=
  mkRect (mkPoint (x (topLeft r) + d) (y (topLeft r))) (size r).
Definition moveY (r : Rect) (d : Z) : Rect :=
  mkRect (mkPoint (x (topLeft r)) (y (topLeft r) + d)) (size r).

(** [p.x += d] and [p.y += d]. *)
Definition stepX (p : Vector) (d : Z) : Vector := mkPoint (x p + d) (y p).
Definition stepY (p : Vector) (d : Z) : Vector := mkPoint (x p) (y p + d).
End base.

(** ** Components *)

Module components.
Definition BoundingBox := base.Rect.
Definition WorldPosition := base.Vector.

Record Physical := mkPhysical {
  mVelocity : base.Point f32.float;
  mGravityAffected : bool;
  mCanStepUpStairs : bool
}.

(** [physical.mVelocity.y = v]. *)
Definition setVelocityY (p : Physical) (v : f32.float) : Physical :=
  mkPhysical (base.mkPoint (base.x (mVelocity p)) v)
             (mGravityAffected p) (mCanStepUpStairs p).
End components.

Import components.

(** Modelled from the spec: [engine::CollisionChecker] is declared in
    [collision_checker.hpp], which is not part of the sources at hand. The
    specification describes it as four boolean queries over a world-space
    box, answered against world state that the physics system only reads
    (it holds a pointer to a [const] checker). *)
Record CollisionChecker := mkCollisionChecker {
  isTouchingRightWall : BoundingBox -> bool;
  isTouchingLeftWall : BoundingBox -> bool;
  isTouchingCeiling : BoundingBox -> bool;
  isOnSolidGround : BoundingBox -> bool
}.

(** [toWorldSpace]: the box's bottom row is aligned with the position. *)
Definition toWorldSpace (bbox : BoundingBox) (entityPosition : base.Vector)
  : BoundingBox :=
  base.translate bbox
    (base.mkPoint (base.x entityPosition)
                  (base.y entityPosition - (base.height (base.size bbox) - 1))).

(** ** The physics system *)

Section PhysicsSystem.
Variable mpCollisionChecker : CollisionChecker.

(** The leading-edge query of the horizontal resolver. *)
Definition isTouchingWall (movingRight : bool) (b : BoundingBox) : bool :=
  if movingRight then isTouchingRightWall mpCollisionChecker b
  else isTouchingLeftWall mpCollisionChecker b.

(** The body of the loop of [applyHorizontalMovement], run for the
    [steps] iterations that remain. [break] returns the position reached;
    [continue] and the end of the body go on with one iteration less. *)
Fixpoint horizontalLoop (movingRight allowStairStepping : bool)
    (steps : nat) (movingBbox : BoundingBox) (newPosition : base.Vector)
  : base.Vector :=
  match steps with
  | O => newPosition
  | S steps' =>
      let move := if movingRight then 1 else -1 in
      let isTouching := isTouchingWall movingRight movingBbox in
      if isTouching then
        if allowStairStepping then
          let stepUpBbox := base.moveY movingBbox (-1) in
          let collisionAfterStairStep := isTouchingWall movingRight stepUpBbox in
          if negb collisionAfterStairStep then
            let stepUpBbox := base.moveX stepUpBbox move in
            if isOnSolidGround mpCollisionChecker stepUpBbox then
              horizontalLoop movingRight allowStairStepping steps'
                (base.moveY (base.moveX movingBbox move) (-1))
                (base.stepY (base.stepX newPosition move) (-1))
            else newPosition
          else newPosition
        else newPosition
      else
        horizontalLoop movingRight allowStairStepping steps'
          (base.moveX movingBbox move) (base.stepX newPosition move)
  end.

Definition applyHorizontalMovement (bbox : BoundingBox)
    (currentPosition : base.Vector) (movementX : Z)
    (allowStairStepping : bool) : base.Vector :=
  let movingRight := 0 <? movementX in
  horizontalLoop movingRight allowStairStepping
    (Z.to_nat (Z.abs movementX)) bbox currentPosition.

Definition applyGravity (bbox : BoundingBox) (currentVelocity : f32.float)
  : f32.float :=
  if f32.eqb currentVelocity f32.zero then
    if isOnSolidGround mpCollisionChecker bbox then currentVelocity
    else f32.one
  else
    if f32.ltb currentVelocity f32.two then
      f32.add currentVelocity f32.c0_56
    else f32.two.

(** The contact query of the vertical resolver. *)
Definition isTouchingFloorOrCeiling (movingDown : bool) (b : BoundingBox)
  : bool :=
  if movingDown then isOnSolidGround mpCollisionChecker b
  else isTouchingCeiling mpCollisionChecker b.

Fixpoint verticalLoop (movingDown beginFallingOnHittingCeiling : bool)
    (currentVelocity : f32.float)
    (steps : nat) (movingBbox : BoundingBox) (newPosition : base.Vector)
  : base.Vector * f32.float :=
  match steps with
  | O => (newPosition, currentVelocity)
  | S steps' =>
      let isTouching := isTouchingFloorOrCeiling movingDown movingBbox in
      if isTouching then
        if movingDown || negb beginFallingOnHittingCeiling then
          (newPosition, f32.zero)
        else
          (newPosition, f32.one)
      else
        let move := if movingDown then 1 else -1 in
        verticalLoop movingDown beginFallingOnHittingCeiling currentVelocity
          steps' (base.moveY movingBbox move) (base.stepY newPosition move)
  end.

Definition applyVerticalMovement (bbox : BoundingBox)
    (currentPosition : base.Vector) (currentVelocity : f32.float)
    (movementY : Z) (beginFallingOnHittingCeiling : bool)
  : base.Vector * f32.float :=
  let movingDown := 0 <? movementY in
  verticalLoop movingDown beginFallingOnHittingCeiling currentVelocity
    (Z.to_nat (Z.abs movementY)) bbox currentPosition.

(** *** One entity, one tick: the body of the lambda in [update] *)

(** The three stages of the body, each on the values the source holds in
    [position] and [physical] at that point. *)
Definition horizontalStage (physical : Physical) (position : WorldPosition)
    (collisionRect : BoundingBox) (movementX : Z) : WorldPosition :=
  if negb (movementX =? 0) then
    applyHorizontalMovement (toWorldSpace collisionRect position)
      position movementX (mCanStepUpStairs physical)
  else position.

Definition gravityStage (physical : Physical) (bbox : BoundingBox)
  : Physical :=
  if mGravityAffected physical then
    setVelocityY physical
      (applyGravity bbox (base.y (mVelocity physical)))
  else physical.

Definition verticalStage (physical : Physical) (position : WorldPosition)
    (bbox : BoundingBox) (movementY : Z) : WorldPosition * Physical :=
  if negb (movementY =? 0) then
    let '(p, v) :=
      applyVerticalMovement bbox position
        (base.y (mVelocity physical)) movementY
        (mGravityAffected physical) in
    (p, setVelocityY physical v)
  else (position, physical).

(** The result is the new [Physical], the new position, and the value
    passed to [setTag<CollidedWithWorld>]. *)
Definition updateBody (physical : Physical) (position : WorldPosition)
    (collisionRect : BoundingBox)
  : option (Physical * WorldPosition * bool) :=
  let originalPosition := position in
  movementX ← f32.to_int16 (base.x (mVelocity physical));
  let position :=
    horizontalStage physical position collisionRect movementX in
  let bbox := toWorldSpace collisionRect position in
  let physical := gravityStage physical bbox in
  movementY ← f32.to_int16 (base.y (mVelocity physical));
  let '(position, physical) :=
    verticalStage physical position bbox movementY in
  let collisionOccured :=
    base.neqb position
      (base.add originalPosition (base.mkPoint movementX movementY)) in
  Some (physical, position, collisionOccured).
End PhysicsSystem.

(** ** The entity store *)

(** Modelled from the spec: the entity manager ([entityx]) and [setTag] are
    not part of the sources at hand. An entity is a bundle of optional
    components and presence-only tags; [each<Physical, WorldPosition,
    BoundingBox, Active>] visits exactly the entities that carry all four,
    and [setTag<CollidedWithWorld>(entity, b)] makes the tag present iff
    [b] holds. *)
Record Entity := mkEntity {
  physical : option Physical;
  worldPosition : option WorldPosition;
  boundingBox : option BoundingBox;
  active : bool;
  collidedWithWorld : bool
}.

Definition EntityManager := list Entity.

Definition updateEntity (cc : CollisionChecker) (e : Entity) : option Entity :=
  match physical e, worldPosition e, boundingBox e, active e with
  | Some ph, Some pos, Some rect, true =>
      r ← updateBody cc ph pos rect;
      let '(ph', pos', collisionOccured) := r in
      Some (mkEntity (Some ph') (Some pos') (boundingBox e) (active e)
                     collisionOccured)
  | _, _, _, _ => Some e
  end.

(** [PhysicsSystem::update]: one tick over all entities. *)
Definition update (cc : CollisionChecker) (es : EntityManager)
  : option EntityManager :=
  mapM (updateEntity cc) es.


(** * Definitions used to state the properties *)

(** The direction of a horizontal or vertical move: [+1] or [-1]. *)
Definition direction (positive : bool) : Z := if positive then 1 else -1.

(** The stair-step rule in the specification's words: stepping is
    permitted, the box raised by one pixel has no contact on its leading
    edge, and the raised box advanced by one pixel rests on solid ground. *)
Definition stairStepAccepted (cc : CollisionChecker)
    (movingRight allowStairStepping : bool) (b : BoundingBox) : bool :=
  allowStairStepping
  && negb (isTouchingWall cc movingRight (base.moveY b (-1)))
  && isOnSolidGround cc
       (base.moveX (base.moveY b (-1)) (direction movingRight)).

(** The velocity the vertical resolver returns on contact. *)
Definition contactVelocity (movingDown beginFallingOnHittingCeiling : bool)
  : f32.float :=
  if movingDown || negb beginFallingOnHittingCeiling then f32.zero
  else f32.one.

(** A run of the horizontal loop, as the sequence of moves it makes: each
    plain move leaves a box the oracle reports clear on the leading edge,
    each stair-step is one the rule accepts. Box and position move
    together. *)
Inductive HorizontalPath (cc : CollisionChecker) (right allow : bool)
  : nat -> BoundingBox * base.Vector -> BoundingBox * base.Vector -> Prop :=
| HorizontalPath_done : forall s, HorizontalPath cc right allow 0 s s
| HorizontalPath_advance : forall k b p s',
    isTouchingWall cc right b = false ->
    HorizontalPath cc right allow k
      (base.moveX b (direction right), base.stepX p (direction right)) s' ->
    HorizontalPath cc right allow (S k) (b, p) s'
| HorizontalPath_stair : forall k b p s',
    isTouchingWall cc right b = true ->
    stairStepAccepted cc right allow b = true ->
    HorizontalPath cc right allow k
      (base.moveY (base.moveX b (direction right)) (-1),
       base.stepY (base.stepX p (direction right)) (-1)) s' ->
    HorizontalPath cc right allow (S k) (b, p) s'.

(** The vertical velocity the step counts are taken from: the velocity
    after the gravity model was applied, for entities it applies to. *)
Definition velocityAfterGravity (cc : CollisionChecker) (ph : Physical)
    (bbox : BoundingBox) : f32.float :=
  if mGravityAffected ph then applyGravity cc bbox (base.y (mVelocity ph))
  else base.y (mVelocity ph).

(** What a stage of the body leaves alone. *)
Definition sameTraits (ph ph' : Physical) : Prop :=
  base.x (mVelocity ph') = base.x (mVelocity ph) /\
  mGravityAffected ph' = mGravityAffected ph /\
  mCanStepUpStairs ph' = mCanStepUpStairs ph.

(** An entity that [each] visits. *)
Definition processed (e : Entity) (ph : Physical) (pos : WorldPosition)
    (rect : BoundingBox) : Prop :=
  physical e = Some ph /\ worldPosition e = Some pos /\
  boundingBox e = Some rect /\ active e = true.

(** What a tick leaves alone in an entity: the local bounding box, the
    Active marker, which components are present, and, in [Physical],
    velocity.x and the two traits. *)
Definition frame (e e' : Entity) : Prop :=
  boundingBox e' = boundingBox e /\
  active e' = active e /\
  (is_Some (worldPosition e') <-> is_Some (worldPosition e)) /\
  match physical e, physical e' with
  | Some ph, Some ph' => sameTraits ph ph'
  | None, None => True
  | _, _ => False
  end.

(** The value of mantissa [m] at exponent [e], scaled by [2^149] so that
    it is an integer for every exponent binary32 can have. *)
Definition scaled (m e : Z) : Z := m * 2 ^ (e + 149).

(** [atMost mB eB r]: the float [r] is a number (not NaN) that is at most
    the positive binary32 number with mantissa [mB] and exponent [eB]. *)
Definition atMost (mB : positive) (eB : Z) (r : spec_float) : Prop :=
  match r with
  | S754_zero _ => True
  | S754_infinity s => s = true
  | S754_nan => False
  | S754_finite true _ _ => True
  | S754_finite false m e =>
      -149 <= e <= eB /\ scaled (Zpos m) e <= scaled (Zpos mB) eB
  end.

(** The largest value the gravity model can return: [2.0f + 0.56f]. *)
Definition maxGravityVelocity : f32.float :=
  Eval vm_compute in f32.add f32.two f32.c0_56.

(** [r] is a number that is not below zero: a zero, a positive finite
    number or plus infinity. *)
Definition notNegative (r : spec_float) : Prop :=
  match r with
  | S754_zero _ | S754_finite false _ _ | S754_infinity false => True
  | _ => False
  end.

(** ** Worlds and entities used as concrete instances *)

(** A checker for a room: a box touches the wall on its right when its
    right edge is at [wallX], stands on the ground when its bottom edge is
    at [floorY], and touches the ceiling when its top edge is at
    [ceilingY]; there is no wall on the left. *)
Definition room (wallX floorY ceilingY : Z) : CollisionChecker :=
  mkCollisionChecker
    (fun b => base.x (base.topLeft b) + base.width (base.size b) =? wallX)
    (fun _ => false)
    (fun b => base.y (base.topLeft b) =? ceilingY)
    (fun b => base.y (base.topLeft b) + base.height (base.size b) =? floorY).

(** A checker for a one-pixel stair: solid from column 13 on and from row
    10 down, so that a box whose right edge is at 13 touches the wall
    unless it is above row 10, and a box over the solid part whose bottom
    edge is at 10 stands on the ground. *)
Definition stairs : CollisionChecker :=
  mkCollisionChecker
    (fun b =>
       (base.x (base.topLeft b) + base.width (base.size b) =? 13)
       && (10 <? base.y (base.topLeft b) + base.height (base.size b)))
    (fun _ => false)
    (fun _ => false)
    (fun b =>
       (base.y (base.topLeft b) + base.height (base.size b) =? 10)
       && (13 <=? base.x (base.topLeft b) + base.width (base.size b))).

Definition unitBox : BoundingBox :=
  base.mkRect (base.mkPoint 0 0) (base.mkSize 1 1).

(** An active entity with a one-pixel box. *)
Definition activeEntity (ph : Physical) (pos : WorldPosition) (c : bool)
  : Entity :=
  mkEntity (Some ph) (Some pos) (Some unitBox) true c.

(** Moving right by 3, not subject to gravity, no stair-stepping. *)
Definition walker : Physical :=
  mkPhysical (base.mkPoint (f32.of_Z 3) f32.zero) false false.

(** At rest, subject to gravity. *)
Definition rester : Physical :=
  mkPhysical (base.mkPoint f32.zero f32.zero) true true.

(** Moving up by 3, subject to gravity or not. *)
Definition jumper (gravityAffected : bool) : Physical :=
  mkPhysical (base.mkPoint f32.zero (f32.of_Z (-3))) gravityAffected false.

(** * Properties *)

(** ** Geometry *)

Lemma moveX_moveX (b : BoundingBox) (c d : Z) :
  base.moveX (base.moveX b c) d = base.moveX b (c + d).
Proof. unfold base.moveX; simpl. do 2 f_equal. lia. Qed.

Lemma moveY_moveY (b : BoundingBox) (c d : Z) :
  base.moveY (base.moveY b c) d = base.moveY b (c + d).
Proof. unfold base.moveY; simpl. do 2 f_equal. lia. Qed.

Lemma moveY_0 (b : BoundingBox) : base.moveY b 0 = b.
Proof.
  destruct b as [[bx by_] sz]. unfold base.moveY; simpl.
  do 2 f_equal. lia.
Qed.

Lemma stepY_stepY (p : base.Vector) (c d : Z) :
  base.stepY (base.stepY p c) d = base.stepY p (c + d).
Proof. unfold base.stepY; simpl. f_equal. lia. Qed.

Lemma stepY_0 (p : base.Vector) : base.stepY p 0 = p.
Proof. destruct p as [px py]. unfold base.stepY; simpl. f_equal. lia. Qed.

Lemma base_eqb_eq (a b : base.Vector) : base.eqb a b = true <-> a = b.
Proof.
  destruct a as [ax ay], b as [bx by_]. unfold base.eqb; simpl.
  rewrite andb_true_iff, !Z.eqb_eq. split.
  - intros [-> ->]. reflexivity.
  - intros H. injection H as -> ->. split; reflexivity.
Qed.

Lemma base_neqb_true (a b : base.Vector) : base.neqb a b = true <-> a <> b.
Proof.
  unfold base.neqb. rewrite negb_true_iff, <- not_true_iff_false.
  rewrite base_eqb_eq. reflexivity.
Qed.

Lemma direction_sgn (m : Z) : m <> 0 -> direction (0 <? m) = Z.sgn m.
Proof. unfold direction. destruct (Z.ltb_spec 0 m); lia. Qed.

(** ** Binary32 comparison and rounding *)

Lemma SFcompare_antisym (a b : spec_float) :
  SFcompare b a = option_map CompOpp (SFcompare a b).
Proof.
  destruct a as [sa|sa| |sa ma ea], b as [sb|sb| |sb mb eb]; simpl;
    try destruct sa; try destruct sb; simpl; try reflexivity.
  all: rewrite (Z.compare_antisym ea eb);
    pose proof (Pos.compare_cont_antisym ma mb Eq) as H; simpl in H;
    destruct (ea ?= eb); simpl; try reflexivity;
    rewrite <- H, ?CompOpp_involutive; reflexivity.
Qed.

Lemma f32_leb_not_ltb (a b : f32.float) :
  f32.leb a b = true -> f32.ltb b a = false.
Proof.
  unfold f32.leb, f32.ltb, SFleb, SFltb.
  rewrite (SFcompare_antisym a b).
  destruct (SFcompare a b) as [[]|]; simpl; congruence.
Qed.

Lemma f32_eqb_zero (v : f32.float) :
  f32.eqb v f32.zero = true <-> exists s, v = S754_zero s.
Proof.
  split.
  - destruct v as [s|s| |s m e]; try destruct s; simpl; try discriminate;
      intros _; eexists; reflexivity.
  - intros [s ->]. reflexivity.
Qed.

Lemma to_int16_zero (v : f32.float) :
  f32.eqb v f32.zero = true -> f32.to_int16 v = Some 0.
Proof. intros H. apply f32_eqb_zero in H as [s ->]. reflexivity. Qed.

Lemma fexp32 (e : Z) : fexp f32.prec f32.emax e = Z.max (e - 24) (-149).
Proof. reflexivity. Qed.

Lemma digits2_bounds (m : positive) :
  2 ^ (Zpos (digits2_pos m) - 1) <= Zpos m < 2 ^ Zpos (digits2_pos m).
Proof.
  induction m as [m IH|m IH|]; simpl digits2_pos.
  - rewrite Pos2Z.inj_succ.
    replace (Z.succ (Zpos (digits2_pos m)) - 1)
      with (Z.succ (Zpos (digits2_pos m) - 1)) by lia.
    rewrite !Z.pow_succ_r by lia. lia.
  - rewrite Pos2Z.inj_succ.
    replace (Z.succ (Zpos (digits2_pos m)) - 1)
      with (Z.succ (Zpos (digits2_pos m) - 1)) by lia.
    rewrite !Z.pow_succ_r by lia. lia.
  - simpl. lia.
Qed.

Lemma shr_1_m (mrs : shr_record) :
  0 <= shr_m mrs -> shr_m (shr_1 mrs) = shr_m mrs / 2.
Proof.
  destruct mrs as [[|[p|p|]|p] r s]; simpl; intros H; try lia;
    rewrite <- Z.div2_div; reflexivity.
Qed.

Lemma iter_shr_1_m (p : positive) :
  forall mrs : shr_record,
    0 <= shr_m mrs ->
    shr_m (SpecFloat.iter_pos shr_1 p mrs) = shr_m mrs / 2 ^ Zpos p.
Proof.
  assert (Hpow : forall q : positive, 0 < 2 ^ Zpos q)
    by (intros q; apply Z.pow_pos_nonneg; lia).
  induction p as [p IH|p IH|]; intros mrs H.
  - change (SpecFloat.iter_pos shr_1 p~1 mrs)
      with (SpecFloat.iter_pos shr_1 p (SpecFloat.iter_pos shr_1 p (shr_1 mrs))).
    assert (H1 : 0 <= shr_m (shr_1 mrs))
      by (rewrite shr_1_m by assumption; apply Z.div_pos; lia).
    assert (H2 : 0 <= shr_m (SpecFloat.iter_pos shr_1 p (shr_1 mrs)))
      by (rewrite IH by assumption; apply Z.div_pos; [lia | apply Hpow]).
    rewrite IH, IH, shr_1_m by assumption.
    pose proof (Hpow p).
    rewrite !Z.div_div by lia. f_equal.
    replace (Zpos p~1) with (1 + Zpos p + Zpos p) by lia.
    rewrite !Z.pow_add_r by lia. change (2 ^ 1) with 2. lia.
  - change (SpecFloat.iter_pos shr_1 p~0 mrs)
      with (SpecFloat.iter_pos shr_1 p (SpecFloat.iter_pos shr_1 p mrs)).
    assert (H2 : 0 <= shr_m (SpecFloat.iter_pos shr_1 p mrs))
      by (rewrite IH by assumption; apply Z.div_pos; [lia | apply Hpow]).
    rewrite IH, IH by assumption.
    pose proof (Hpow p).
    rewrite !Z.div_div by lia. f_equal.
    replace (Zpos p~0) with (Zpos p + Zpos p) by lia.
    rewrite Z.pow_add_r by lia. reflexivity.
  - change (SpecFloat.iter_pos shr_1 1 mrs) with (shr_1 mrs).
    rewrite shr_1_m by assumption. reflexivity.
Qed.

(** The shift that brings a mantissa to its canonical exponent divides by a
    power of two and raises the exponent accordingly. *)
Lemma shr_fexp_exact (m e : Z) :
  0 <= m ->
  let r := shr_fexp f32.prec f32.emax m e loc_Exact in
  snd r = Z.max e (fexp f32.prec f32.emax (Zdigits2 m + e)) /\
  shr_m (fst r) = m / 2 ^ (snd r - e) /\
  0 <= shr_m (fst r).
Proof.
  intros Hm. cbv zeta. unfold shr_fexp, shr. simpl shr_record_of_loc.
  destruct (fexp f32.prec f32.emax (Zdigits2 m + e) - e) as [|p|p] eqn:Hs;
    simpl fst; simpl snd.
  - split; [lia|]. rewrite Z.sub_diag, Z.div_1_r. simpl. split; [reflexivity | exact Hm].
  - split; [lia|]. rewrite iter_shr_1_m by exact Hm. simpl shr_m.
    replace (e + Zpos p - e) with (Zpos p) by lia.
    split; [reflexivity|]. apply Z.div_pos; [exact Hm|].
    apply Z.pow_pos_nonneg; lia.
  - split; [lia|]. rewrite Z.sub_diag, Z.div_1_r. simpl. split; [reflexivity | exact Hm].
Qed.

Lemma round_nearest_even_bounds (m : Z) (l : location) :
  m <= round_nearest_even m l <= m + 1.
Proof.
  destruct l as [|[]]; simpl; try lia. destruct (Z.even m); lia.
Qed.

Lemma pow2_pos (k : Z) : 0 <= k -> 0 < 2 ^ k.
Proof. intros. apply Z.pow_pos_nonneg; lia. Qed.

Lemma pow2_lt_inv (a b : Z) : 0 <= b -> 2 ^ a < 2 ^ b -> a < b.
Proof. intros Hb H. apply (Z.pow_lt_mono_r_iff 2); [lia | exact Hb | exact H]. Qed.

Lemma scaled_shift (m e e' : Z) :
  0 <= m -> -149 <= e <= e' ->
  scaled (m / 2 ^ (e' - e)) e' <= scaled m e.
Proof.
  intros Hm He. unfold scaled.
  replace (e' + 149) with ((e' - e) + (e + 149)) by lia.
  rewrite Z.pow_add_r by lia.
  pose proof (pow2_pos (e' - e) ltac:(lia)) as Hk.
  pose proof (pow2_pos (e + 149) ltac:(lia)) as Hs.
  pose proof (Z.mul_div_le m (2 ^ (e' - e)) Hk) as Hd.
  rewrite Z.mul_assoc.
  apply Z.mul_le_mono_nonneg_r; [lia|]. lia.
Qed.

Lemma scaled_digits_bound (q : positive) (e : Z) (mB : positive) (eB : Z) :
  -149 <= e -> -149 <= eB ->
  Zpos (digits2_pos mB) = 24 ->
  scaled (Zpos q) e <= scaled (Zpos mB) eB ->
  Zpos (digits2_pos q) + e - 24 <= eB.
Proof.
  intros He HeB HdB Hle. unfold scaled in Hle.
  pose proof (digits2_bounds q) as [Hq _].
  pose proof (digits2_bounds mB) as [_ HB]. rewrite HdB in HB.
  pose proof (pow2_pos (e + 149) ltac:(lia)) as Hs.
  pose proof (pow2_pos (eB + 149) ltac:(lia)) as HsB.
  assert (H : 2 ^ (Zpos (digits2_pos q) - 1 + (e + 149))
              < 2 ^ (24 + (eB + 149))).
  { rewrite (Z.pow_add_r 2 (Zpos (digits2_pos q) - 1) (e + 149)) by lia.
    rewrite (Z.pow_add_r 2 24 (eB + 149)) by lia.
    apply Z.le_lt_trans with (Zpos q * 2 ^ (e + 149)).
    - apply Z.mul_le_mono_nonneg_r; lia.
    - apply Z.le_lt_trans with (Zpos mB * 2 ^ (eB + 149)); [exact Hle|].
      apply Zmult_lt_compat_r; lia. }
  apply pow2_lt_inv in H; lia.
Qed.

Lemma scaled_le_inv (m m' e : Z) :
  -149 <= e -> scaled m e <= scaled m' e -> m <= m'.
Proof.
  intros He H. unfold scaled in H.
  pose proof (pow2_pos (e + 149) ltac:(lia)) as Hs.
  apply (Z.mul_le_mono_pos_r m m' (2 ^ (e + 149)) Hs). exact H.
Qed.

Lemma atMost_leb (mB : positive) (eB : Z) (r : spec_float) :
  atMost mB eB r -> f32.leb r (S754_finite false mB eB) = true.
Proof.
  destruct r as [s|s| |[|] m e]; simpl; try (intros; reflexivity).
  - intros ->. reflexivity.
  - intros [].
  - intros [He Hle]. unfold f32.leb, SFleb, SFcompare.
    destruct (Z.compare_spec e eB) as [Heq|Hl|Hg]; [|reflexivity|lia].
    subst e. apply scaled_le_inv in Hle; [|lia].
    change (Pos.compare_cont Eq m mB) with (Pos.compare m mB).
    destruct (Pos.compare_spec m mB); try reflexivity. lia.
Qed.

(** Rounding a positive value that lies below a normal binary32 number
    gives at most that number. *)
Lemma binary_round_aux_atMost (mx : positive) (ex : Z)
    (mB : positive) (eB : Z) :
  -149 <= ex ->
  ex <= fexp f32.prec f32.emax (Zpos (digits2_pos mx) + ex) ->
  Zpos (digits2_pos mB) = 24 ->
  -149 <= eB <= 104 ->
  scaled (Zpos mx) ex < scaled (Zpos mB) eB ->
  atMost mB eB
    (binary_round_aux f32.prec f32.emax false (Zpos mx) ex loc_Exact).
Proof.
  intros Hex Hcanon HdB HeB Hlt. unfold binary_round_aux.
  pose proof (shr_fexp_exact (Zpos mx) ex ltac:(lia)) as H1. cbv zeta in H1.
  destruct (shr_fexp f32.prec f32.emax (Zpos mx) ex loc_Exact) as [mrs1 e1].
  simpl fst in H1; simpl snd in H1. destruct H1 as (He1 & Hm1 & Hn1).
  simpl Zdigits2 in He1. rewrite Z.max_r in He1 by exact Hcanon.
  pose proof (round_nearest_even_bounds (shr_m mrs1) (loc_of_shr_record mrs1))
    as Hrne.
  set (m2 := round_nearest_even (shr_m mrs1) (loc_of_shr_record mrs1)) in *.
  pose proof (shr_fexp_exact m2 e1 ltac:(lia)) as H2. cbv zeta in H2.
  destruct (shr_fexp f32.prec f32.emax m2 e1 loc_Exact) as [mrs2 e2].
  simpl fst in H2; simpl snd in H2. destruct H2 as (He2 & Hm2 & Hn2).
  assert (Ha : e1 <= eB).
  { rewrite He1, fexp32.
    pose proof (scaled_digits_bound mx ex mB eB Hex ltac:(lia) HdB ltac:(lia)).
    lia. }
  assert (He1' : ex <= e1) by (rewrite He1; exact Hcanon).
  assert (Hb : scaled (shr_m mrs1) e1 < scaled (Zpos mB) eB).
  { rewrite Hm1. eapply Z.le_lt_trans; [|exact Hlt].
    apply scaled_shift; lia. }
  assert (Hc : scaled m2 e1 <= scaled (Zpos mB) eB).
  { unfold scaled in *.
    replace (eB + 149) with ((eB - e1) + (e1 + 149)) in Hb |- * by lia.
    rewrite (Z.pow_add_r 2 (eB - e1) (e1 + 149)) in Hb |- * by lia.
    pose proof (pow2_pos (e1 + 149) ltac:(lia)) as Hs.
    rewrite Z.mul_assoc in Hb |- *.
    apply Zmult_lt_reg_r in Hb; [|exact Hs].
    apply Z.mul_le_mono_nonneg_r; lia. }
  assert (Hd : scaled (shr_m mrs2) e2 <= scaled (Zpos mB) eB).
  { rewrite Hm2. eapply Z.le_trans; [|exact Hc].
    apply scaled_shift; lia. }
  assert (He : e1 <= e2 <= eB).
  { rewrite He2. split; [lia|]. apply Z.max_lub; [exact Ha|]. rewrite fexp32.
    destruct m2 as [|q|q]; [simpl; lia | | lia].
    pose proof (scaled_digits_bound q e1 mB eB ltac:(lia) ltac:(lia) HdB Hc).
    simpl Zdigits2. lia. }
  destruct (shr_m mrs2) as [|m|m] eqn:Hres; [exact I | | lia].
  replace (e2 <=? f32.emax - f32.prec) with true
    by (symmetry; apply Z.leb_le; unfold f32.emax, f32.prec; lia).
  simpl. split; [lia | exact Hd].
Qed.

Lemma iter_xO_value (m d : positive) :
  Zpos (Pos.iter xO m d) = Zpos m * 2 ^ Zpos d.
Proof.
  induction d as [|d IH] using Pos.peano_ind.
  - simpl. lia.
  - rewrite Pos.iter_succ, Pos2Z.inj_xO, IH, Pos2Z.inj_succ.
    rewrite Z.pow_succ_r by lia. lia.
Qed.

Lemma iter_xO_digits (m d : positive) :
  Zpos (digits2_pos (Pos.iter xO m d)) = Zpos (digits2_pos m) + Zpos d.
Proof.
  induction d as [|d IH] using Pos.peano_ind.
  - simpl. lia.
  - rewrite Pos.iter_succ. simpl digits2_pos.
    rewrite Pos2Z.inj_succ, IH. lia.
Qed.

(** Aligning a mantissa to a smaller exponent multiplies it by the
    corresponding power of two. *)
Lemma shl_align_fst (mx : positive) (ex ez : Z) :
  ez <= ex ->
  Zpos (fst (shl_align mx ex ez)) = Zpos mx * 2 ^ (ex - ez).
Proof.
  intros H. unfold shl_align.
  destruct (ez - ex) as [|d|d] eqn:Hd; simpl fst.
  - replace (ex - ez) with 0 by lia. lia.
  - lia.
  - rewrite iter_xO_value. replace (ex - ez) with (Zpos d) by lia.
    reflexivity.
Qed.

Lemma binary_round_atMost (mx : positive) (ex : Z) (mB : positive) (eB : Z) :
  -149 <= ex ->
  Zpos (digits2_pos mB) = 24 ->
  -149 <= eB <= 104 ->
  scaled (Zpos mx) ex < scaled (Zpos mB) eB ->
  atMost mB eB (binary_round f32.prec f32.emax false mx ex).
Proof.
  intros Hex HdB HeB Hlt. unfold binary_round, shl_align.
  set (E := fexp f32.prec f32.emax (Zpos (digits2_pos mx) + ex)).
  assert (HE : -149 <= E) by (unfold E; rewrite fexp32; lia).
  destruct (E - ex) as [|d|d] eqn:Hd.
  - apply binary_round_aux_atMost; try assumption. fold E. lia.
  - apply binary_round_aux_atMost; try assumption. fold E. lia.
  - apply binary_round_aux_atMost; try assumption.
    + rewrite iter_xO_digits.
      replace (Zpos (digits2_pos mx) + Zpos d + E)
        with (Zpos (digits2_pos mx) + ex) by lia.
      fold E. lia.
    + unfold scaled in *. rewrite iter_xO_value.
      replace (ex + 149) with (Zpos d + (E + 149)) in Hlt by lia.
      rewrite Z.pow_add_r in Hlt by lia.
      rewrite <- Z.mul_assoc. exact Hlt.
Qed.

(** Rounding a negative value gives a negative number, zero or minus
    infinity, never NaN. *)
Lemma binary_round_negative (mx : positive) (ex : Z) (mB : positive) (eB : Z) :
  atMost mB eB (binary_round f32.prec f32.emax true mx ex).
Proof.
  unfold binary_round.
  destruct (shl_align mx ex _) as [mz ez]. unfold binary_round_aux.
  pose proof (shr_fexp_exact (Zpos mz) ez ltac:(lia)) as H1. cbv zeta in H1.
  destruct (shr_fexp f32.prec f32.emax (Zpos mz) ez loc_Exact) as [mrs1 e1].
  simpl fst in H1. destruct H1 as (_ & _ & Hn1).
  pose proof (round_nearest_even_bounds (shr_m mrs1) (loc_of_shr_record mrs1))
    as Hrne.
  set (m2 := round_nearest_even (shr_m mrs1) (loc_of_shr_record mrs1)) in *.
  pose proof (shr_fexp_exact m2 e1 ltac:(lia)) as H2. cbv zeta in H2.
  destruct (shr_fexp f32.prec f32.emax m2 e1 loc_Exact) as [mrs2 e2].
  simpl fst in H2. destruct H2 as (_ & _ & Hn2).
  destruct (shr_m mrs2) as [|m|m]; [exact I | | lia].
  destruct (e2 <=? f32.emax - f32.prec); simpl; [exact I | reflexivity].
Qed.

(** A valid finite binary32 number has at most 24 digits and an exponent
    of at least -149; above that exponent it has exactly 24 digits. *)
Lemma valid_finite (s : bool) (m : positive) (e : Z) :
  f32.valid (S754_finite s m e) = true ->
  -149 <= e /\ Zpos m < 2 ^ 24 /\ (-149 < e -> 2 ^ 23 <= Zpos m).
Proof.
  unfold f32.valid, valid_binary, bounded, canonical_mantissa.
  rewrite andb_true_iff, Z.eqb_eq, fexp32. intros [Hc _].
  pose proof (digits2_bounds m) as [Hlo Hhi].
  split; [lia|]. split.
  - eapply Z.lt_le_trans; [exact Hhi|].
    apply Z.pow_le_mono_r; lia.
  - intros He.
    replace (Zpos (digits2_pos m)) with 24 in Hlo by lia. exact Hlo.
Qed.

(** Adding 0.56 to a number below 2.0 gives at most [2.0f + 0.56f]. *)
Lemma add_c0_56_atMost (v : f32.float) :
  f32.valid v = true ->
  f32.ltb v f32.two = true ->
  atMost 10737418 (-22) (f32.add v f32.c0_56).
Proof.
  intros Hvalid Hlt.
  destruct v as [s|s| |s m e].
  - simpl. split; [lia|]. vm_compute. discriminate.
  - destruct s; [reflexivity | discriminate].
  - discriminate.
  - apply valid_finite in Hvalid. destruct Hvalid as (He & Hm & Hnorm).
    unfold f32.add, f32.c0_56, SFadd.
    set (ez := Z.min e (-24)).
    assert (Hez : -149 <= ez <= -24) by (unfold ez; lia).
    pose proof (shl_align_fst m e ez ltac:(lia)) as Ha.
    pose proof (shl_align_fst 9395241 (-24) ez ltac:(lia)) as Hb.
    set (a := Zpos (fst (shl_align m e ez))) in *.
    set (b := Zpos (fst (shl_align 9395241 (-24) ez))) in *.
    change (cond_Zopp false b) with b.
    destruct (cond_Zopp s a + b) as [|z|z] eqn:Hz; unfold binary_normalize.
    + exact I.
    + apply binary_round_atMost; [lia | reflexivity | lia |].
      (* the exact sum is below 2.0 + 0.56 *)
      unfold scaled. rewrite <- Hz.
      pose proof (pow2_pos (ez + 149) ltac:(lia)) as Hs.
      assert (Hbs : b * 2 ^ (ez + 149) = 9395241 * 2 ^ 125).
      { rewrite Hb, <- Z.mul_assoc, <- Z.pow_add_r by lia.
        do 2 f_equal. lia. }
      assert (Has : a * 2 ^ (ez + 149) = Zpos m * 2 ^ (e + 149)).
      { rewrite Ha, <- Z.mul_assoc, <- Z.pow_add_r by lia.
        do 2 f_equal. lia. }
      change (-22 + 149) with (2 + 125). rewrite (Z.pow_add_r 2 2 125) by lia.
      change (2 ^ 2) with 4.
      pose proof (pow2_pos 125 ltac:(lia)) as HP.
      rewrite Z.mul_add_distr_r, Hbs.
      destruct s; simpl cond_Zopp.
      * assert (0 < a * 2 ^ (ez + 149)) by (apply Z.mul_pos_pos; [reflexivity | exact Hs]).
        lia.
      * rewrite Has.
        (* a positive number below 2.0 has exponent at most -23 *)
        assert (He' : e <= -23).
        { unfold f32.ltb, SFltb, SFcompare, f32.two in Hlt.
          destruct (Z.compare_spec e (-22)) as [Heq|Hl|Hg];
            [|lia|discriminate].
          subst e.
          change (Pos.compare_cont Eq m 8388608) with (Pos.compare m 8388608)
            in Hlt.
          destruct (Pos.compare_spec m 8388608); try discriminate.
          specialize (Hnorm ltac:(lia)). change (2 ^ 23) with 8388608 in Hnorm.
          lia. }
        assert (Hpow : 2 ^ (e + 149) <= 2 * 2 ^ 125).
        { change (2 * 2 ^ 125) with (2 ^ 126).
          apply Z.pow_le_mono_r; lia. }
        change (2 ^ 24) with 16777216 in Hm.
        assert (Zpos m * 2 ^ (e + 149) <= 16777215 * (2 * 2 ^ 125)).
        { apply Z.mul_le_mono_nonneg; lia. }
        lia.
    + apply binary_round_negative.
Qed.

Lemma atMost_trunc (r : f32.float) (t : Z) :
  atMost 10737418 (-22) r -> f32.trunc r = Some t -> t <= 2.
Proof.
  destruct r as [s|s| |[|] m e]; simpl; intros Hr Ht;
    try discriminate; injection Ht as <-.
  - lia.
  - destruct e as [|k|k]; simpl cond_Zopp.
    + pose proof (Z.shiftl_nonneg (Zpos m) 0). lia.
    + pose proof (Z.shiftl_nonneg (Zpos m) (Zpos k)). lia.
    + pose proof (Z.shiftr_nonneg (Zpos m) (Zpos k)). lia.
  - destruct Hr as [He Hle]. destruct e as [|k|k]; try lia.
    simpl cond_Zopp. rewrite Z.shiftr_div_pow2 by lia.
    unfold scaled in Hle.
    pose proof (pow2_pos (Zneg k + 149) ltac:(lia)) as Hs.
    pose proof (pow2_pos (Zpos k) ltac:(lia)) as Hk.
    assert (Hsplit : 2 ^ 149 = 2 ^ Zpos k * 2 ^ (Zneg k + 149)).
    { rewrite <- Z.pow_add_r by lia. f_equal. lia. }
    assert (Hbig : 10737418 * 2 ^ (-22 + 149) < 3 * 2 ^ 149)
      by (vm_compute; reflexivity).
    assert (Hm : Zpos m < 2 ^ Zpos k * 3).
    { apply (Zmult_lt_reg_r _ _ (2 ^ (Zneg k + 149)) Hs).
      eapply Z.le_lt_trans; [exact Hle|].
      eapply Z.lt_le_trans; [exact Hbig|].
      rewrite Hsplit. lia. }
    pose proof (Z.div_lt_upper_bound _ _ _ Hk Hm). lia.
Qed.

(** ** The gravity model *)

(** C1: the gravity model returns its input (a zero) when the input
    velocity compares equal to 0 and the box is on solid ground; 1.0 when
    the input is 0 and the box is not on solid ground; input + 0.56 when
    the input is nonzero and strictly below 2.0; and 2.0 when the input is
    nonzero and at least 2.0 -- for every input and every oracle. *)
Theorem applyGravity_cases (cc : CollisionChecker) (bbox : BoundingBox)
    (v : f32.float) :
  (f32.eqb v f32.zero = true -> isOnSolidGround cc bbox = true ->
     applyGravity cc bbox v = v /\ exists s, v = S754_zero s) /\
  (f32.eqb v f32.zero = true -> isOnSolidGround cc bbox = false ->
     applyGravity cc bbox v = f32.one) /\
  (f32.eqb v f32.zero = false -> f32.ltb v f32.two = true ->
     applyGravity cc bbox v = f32.add v f32.c0_56) /\
  (f32.eqb v f32.zero = false -> f32.leb f32.two v = true ->
     applyGravity cc bbox v = f32.two).
Proof.
  unfold applyGravity. split; [|split; [|split]].
  - intros Hz Hg. rewrite Hz, Hg. split; [reflexivity|].
    apply f32_eqb_zero; assumption.
  - intros -> ->. reflexivity.
  - intros -> ->. reflexivity.
  - intros -> Hge. rewrite (f32_leb_not_ltb _ _ Hge). reflexivity.
Qed.

Lemma applyGravity_cases_witness :
  applyGravity (room 100 11 0) (toWorldSpace unitBox (base.mkPoint 10 10))
    f32.zero = f32.zero /\
  applyGravity (room 100 100 0) unitBox f32.zero = f32.one /\
  applyGravity (room 100 100 0) unitBox f32.one
    = f32.add f32.one f32.c0_56 /\
  applyGravity (room 100 100 0) unitBox f32.two = f32.two.
Proof.
  split; [|split; [|split]].
  - apply (proj1 (applyGravity_cases (room 100 11 0)
                    (toWorldSpace unitBox (base.mkPoint 10 10)) f32.zero));
      reflexivity.
  - apply (proj1 (proj2 (applyGravity_cases (room 100 100 0) unitBox
                           f32.zero))); reflexivity.
  - apply (proj1 (proj2 (proj2 (applyGravity_cases (room 100 100 0) unitBox
                                  f32.one)))); reflexivity.
  - apply (proj2 (proj2 (proj2 (applyGravity_cases (room 100 100 0) unitBox
                                  f32.two)))); reflexivity.
Defined.

(** C4 (as the code has it): for every binary32 input the gravity model
    returns at most 2.0f + 0.56f; the result exceeds 2.0 only when the
    input is nonzero and below 2.0; and the number of whole pixels in the
    result never exceeds 2. *)
Theorem applyGravity_upper_bound (cc : CollisionChecker) (bbox : BoundingBox)
    (v : f32.float) :
  f32.valid v = true ->
  f32.leb (applyGravity cc bbox v) maxGravityVelocity = true /\
  (f32.ltb f32.two (applyGravity cc bbox v) = true ->
     f32.eqb v f32.zero = false /\ f32.ltb v f32.two = true) /\
  (forall t : Z, f32.trunc (applyGravity cc bbox v) = Some t -> t <= 2).
Proof.
  intros Hvalid.
  assert (H : atMost 10737418 (-22) (applyGravity cc bbox v) /\
              (f32.ltb f32.two (applyGravity cc bbox v) = true ->
               f32.eqb v f32.zero = false /\ f32.ltb v f32.two = true)).
  { unfold applyGravity.
    destruct (f32.eqb v f32.zero) eqn:Hz.
    - apply f32_eqb_zero in Hz as [s ->].
      destruct (isOnSolidGround cc bbox).
      + split; [exact I | discriminate].
      + split; [|discriminate]. simpl. split; [lia|]. vm_compute. discriminate.
    - destruct (f32.ltb v f32.two) eqn:Hlt.
      + split; [|intros _; split; reflexivity].
        apply add_c0_56_atMost; assumption.
      + split; [|discriminate]. simpl. split; [lia|]. vm_compute. discriminate. }
  destruct H as [Hat Hover]. split; [|split].
  - apply (atMost_leb 10737418 (-22)). exact Hat.
  - exact Hover.
  - intros t. apply atMost_trunc. exact Hat.
Qed.

Lemma applyGravity_upper_bound_witness :
  f32.valid (S754_finite false 13086228 (-23)) = true /\
  f32.leb (applyGravity (room 100 100 0) unitBox
             (S754_finite false 13086228 (-23)))
          maxGravityVelocity = true.
Proof.
  split; [reflexivity|].
  exact (proj1 (applyGravity_upper_bound (room 100 100 0) unitBox
                  (S754_finite false 13086228 (-23)) eq_refl)).
Defined.

(** C4 (counterexample to the claim as stated): an entity at rest in the
    air gets the velocities 1.0, 1.56 and then 2.12 from the gravity model
    on three successive ticks, and 2.12 exceeds 2.0. *)
Lemma applyGravity_exceeds_two :
  let cc := room 100 100 0 in
  let v1 := applyGravity cc unitBox f32.zero in
  let v2 := applyGravity cc unitBox v1 in
  let v3 := applyGravity cc unitBox v2 in
  v1 = f32.one /\
  v3 = S754_finite false 8891924 (-22) /\
  f32.ltb f32.two v3 = true /\
  f32.leb v3 f32.two = false.
Proof. vm_compute. repeat split. Qed.

(** ** The horizontal resolver *)

(** One iteration of the loop, by cases on what the oracle reports. *)
Lemma horizontalLoop_S (cc : CollisionChecker) (right allow : bool)
    (n : nat) (b : BoundingBox) (p : base.Vector) :
  horizontalLoop cc right allow (S n) b p =
    if isTouchingWall cc right b then
      if stairStepAccepted cc right allow b then
        horizontalLoop cc right allow n
          (base.moveY (base.moveX b (direction right)) (-1))
          (base.stepY (base.stepX p (direction right)) (-1))
      else p
    else
      horizontalLoop cc right allow n
        (base.moveX b (direction right)) (base.stepX p (direction right)).
Proof.
  unfold stairStepAccepted, direction. simpl.
  destruct (isTouchingWall cc right b); [|reflexivity].
  destruct allow; [|reflexivity]. simpl.
  destruct (isTouchingWall cc right (base.moveY b (-1))); [reflexivity|].
  simpl. reflexivity.
Qed.

(** C5: in any iteration of the horizontal loop that finds contact on the
    leading edge, the stair-step is taken only when stepping is permitted,
    the raised box is clear on its leading edge and the raised and advanced
    box rests on solid ground; a step that is taken moves the position by
    (sign of stepsX, -1) and uses up one iteration; in every other case of
    contact the loop stops at the position reached and the iterations that
    remain are dropped. *)
Theorem stair_step_rule (cc : CollisionChecker) (movementX : Z)
    (allow : bool) (n : nat) (b : BoundingBox) (p : base.Vector) :
  movementX <> 0 ->
  isTouchingWall cc (0 <? movementX) b = true ->
  let right := 0 <? movementX in
  let raised := base.moveY b (-1) in
  let accepted :=
    allow = true /\
    isTouchingWall cc right raised = false /\
    isOnSolidGround cc (base.moveX raised (Z.sgn movementX)) = true in
  (accepted ->
     horizontalLoop cc right allow (S n) b p =
       horizontalLoop cc right allow n
         (base.moveY (base.moveX b (Z.sgn movementX)) (-1))
         (base.mkPoint (base.x p + Z.sgn movementX) (base.y p - 1))) /\
  (~ accepted -> horizontalLoop cc right allow (S n) b p = p).
Proof.
  intros Hm Htouch right raised accepted.
  rewrite horizontalLoop_S. fold right in Htouch. rewrite Htouch.
  unfold stairStepAccepted, accepted, raised, right.
  rewrite (direction_sgn _ Hm).
  split.
  - intros (-> & -> & ->). simpl. reflexivity.
  - intros Hn.
    destruct allow; [|reflexivity]. simpl.
    destruct (isTouchingWall cc (0 <? movementX) (base.moveY b (-1)));
      [reflexivity|]. simpl.
    destruct (isOnSolidGround cc
                (base.moveX (base.moveY b (-1)) (Z.sgn movementX)));
      [|reflexivity].
    exfalso. apply Hn. repeat split.
Qed.

Lemma stair_step_rule_witness :
  let b := toWorldSpace unitBox (base.mkPoint 12 10) in
  (3 <> 0 /\ isTouchingWall stairs (0 <? 3) b = true) /\
  horizontalLoop stairs true true 3 b (base.mkPoint 12 10) =
    horizontalLoop stairs true true 2
      (base.moveY (base.moveX b 1) (-1)) (base.mkPoint 13 9) /\
  horizontalLoop stairs true false 3 b (base.mkPoint 12 10) =
    base.mkPoint 12 10.
Proof.
  cbv zeta. split; [split; [lia | reflexivity]|]. split.
  - apply (proj1 (stair_step_rule stairs 3 true 2
                    (toWorldSpace unitBox (base.mkPoint 12 10))
                    (base.mkPoint 12 10) ltac:(lia) eq_refl)).
    repeat split.
  - apply (proj2 (stair_step_rule stairs 3 false 2
                    (toWorldSpace unitBox (base.mkPoint 12 10))
                    (base.mkPoint 12 10) ltac:(lia) eq_refl)).
    intros [H _]. discriminate H.
Defined.

(** Movement of the horizontal loop: never downward, at most one pixel up
    and one pixel sideways per iteration, and only in the loop's
    direction. *)
Lemma horizontalLoop_bounds (cc : CollisionChecker) (right allow : bool)
    (n : nat) :
  forall (b : BoundingBox) (p : base.Vector),
    let p' := horizontalLoop cc right allow n b p in
    base.y p - Z.of_nat n <= base.y p' <= base.y p /\
    0 <= (base.x p' - base.x p) * direction right <= Z.of_nat n.
Proof.
  induction n as [|n IH]; intros b p; cbv zeta.
  - simpl. unfold direction. destruct right; lia.
  - rewrite horizontalLoop_S.
    destruct (isTouchingWall cc right b).
    + destruct (stairStepAccepted cc right allow b).
      * specialize (IH (base.moveY (base.moveX b (direction right)) (-1))
                       (base.stepY (base.stepX p (direction right)) (-1))).
        cbv zeta in IH. simpl in IH. unfold direction in *.
        destruct right; lia.
      * unfold direction. destruct right; lia.
    + specialize (IH (base.moveX b (direction right))
                     (base.stepX p (direction right))).
      cbv zeta in IH. simpl in IH. unfold direction in *.
      destruct right; lia.
Qed.

(** C10: the horizontal resolver never moves the entity downward (y only
    decreases, by one per stair-step), and x changes by at most |stepsX|
    pixels, in the direction of the sign of stepsX or not at all. *)
Theorem applyHorizontalMovement_bounds (cc : CollisionChecker)
    (bbox : BoundingBox) (currentPosition : base.Vector) (movementX : Z)
    (allowStairStepping : bool) :
  let newPosition :=
    applyHorizontalMovement cc bbox currentPosition movementX
      allowStairStepping in
  base.y newPosition <= base.y currentPosition /\
  base.y currentPosition - base.y newPosition <= Z.abs movementX /\
  0 <= (base.x newPosition - base.x currentPosition) * Z.sgn movementX
    <= Z.abs movementX.
Proof.
  cbv zeta. unfold applyHorizontalMovement.
  pose proof (horizontalLoop_bounds cc (0 <? movementX) allowStairStepping
                (Z.to_nat (Z.abs movementX)) bbox currentPosition) as H.
  cbv zeta in H. rewrite Z2Nat.id in H by lia.
  destruct (Z.eq_dec movementX 0) as [->|Hm].
  - simpl in *. lia.
  - rewrite (direction_sgn _ Hm) in H. lia.
Qed.

(** ** The vertical resolver *)

Lemma verticalLoop_S (cc : CollisionChecker) (down flag : bool)
    (v : f32.float) (n : nat) (b : BoundingBox) (p : base.Vector) :
  verticalLoop cc down flag v (S n) b p =
    if isTouchingFloorOrCeiling cc down b then (p, contactVelocity down flag)
    else verticalLoop cc down flag v n
           (base.moveY b (direction down)) (base.stepY p (direction down)).
Proof.
  unfold contactVelocity, direction. simpl.
  destruct (isTouchingFloorOrCeiling cc down b); [|reflexivity].
  destruct (down || negb flag); reflexivity.
Qed.

(** The loop stops at the first box, [k] pixels along, at which the oracle
    reports contact. *)
Lemma verticalLoop_contact (cc : CollisionChecker) (down flag : bool)
    (v : f32.float) (k : nat) :
  forall (n : nat) (b : BoundingBox) (p : base.Vector),
    (k < n)%nat ->
    (forall j : nat, (j < k)%nat ->
       isTouchingFloorOrCeiling cc down
         (base.moveY b (Z.of_nat j * direction down)) = false) ->
    isTouchingFloorOrCeiling cc down
      (base.moveY b (Z.of_nat k * direction down)) = true ->
    verticalLoop cc down flag v n b p =
      (base.stepY p (Z.of_nat k * direction down), contactVelocity down flag).
Proof.
  induction k as [|k IH]; intros n b p Hlt Hclear Hhit.
  - destruct n as [|n]; [lia|]. rewrite verticalLoop_S.
    change (Z.of_nat 0 * direction down) with 0 in *.
    rewrite moveY_0 in Hhit. rewrite Hhit, stepY_0. reflexivity.
  - destruct n as [|n]; [lia|]. rewrite verticalLoop_S.
    pose proof (Hclear O ltac:(lia)) as H0.
    change (Z.of_nat 0 * direction down) with 0 in H0.
    rewrite moveY_0 in H0. rewrite H0.
    rewrite (IH n); [| lia | |].
    + rewrite stepY_stepY. do 2 f_equal. lia.
    + intros j Hj. rewrite moveY_moveY.
      specialize (Hclear (S j) ltac:(lia)).
      replace (direction down + Z.of_nat j * direction down)
        with (Z.of_nat (S j) * direction down) by lia.
      exact Hclear.
    + rewrite moveY_moveY.
      replace (direction down + Z.of_nat k * direction down)
        with (Z.of_nat (S k) * direction down) by lia.
      exact Hhit.
Qed.

(** Without contact the loop makes all its moves and passes the velocity
    through. *)
Lemma verticalLoop_clear (cc : CollisionChecker) (down flag : bool)
    (v : f32.float) (n : nat) :
  forall (b : BoundingBox) (p : base.Vector),
    (forall j : nat, (j < n)%nat ->
       isTouchingFloorOrCeiling cc down
         (base.moveY b (Z.of_nat j * direction down)) = false) ->
    verticalLoop cc down flag v n b p =
      (base.stepY p (Z.of_nat n * direction down), v).
Proof.
  induction n as [|n IH]; intros b p Hclear.
  - simpl. rewrite stepY_0. reflexivity.
  - rewrite verticalLoop_S.
    pose proof (Hclear O ltac:(lia)) as H0.
    change (Z.of_nat 0 * direction down) with 0 in H0.
    rewrite moveY_0 in H0. rewrite H0.
    rewrite IH.
    + rewrite stepY_stepY. do 2 f_equal. lia.
    + intros j Hj. rewrite moveY_moveY.
      specialize (Hclear (S j) ltac:(lia)).
      replace (direction down + Z.of_nat j * direction down)
        with (Z.of_nat (S j) * direction down) by lia.
      exact Hclear.
Qed.

(** C6: the vertical resolver, at the first iteration [k] that finds
    contact, returns the position accumulated so far ([k] pixels along)
    with velocity 0.0 when moving down, or moving up with the
    begin-falling flag false, and with velocity 1.0 when moving up with
    the flag true; when all |stepsY| iterations find no contact it returns
    the fully advanced position and the input velocity. *)
Theorem applyVerticalMovement_cases (cc : CollisionChecker)
    (bbox : BoundingBox) (currentPosition : base.Vector)
    (currentVelocity : f32.float) (movementY : Z) (flag : bool) :
  let down := 0 <? movementY in
  let boxAfter (j : nat) := base.moveY bbox (Z.of_nat j * Z.sgn movementY) in
  let posAfter (j : nat) :=
    base.mkPoint (base.x currentPosition)
                 (base.y currentPosition + Z.of_nat j * Z.sgn movementY) in
  let result :=
    applyVerticalMovement cc bbox currentPosition currentVelocity
      movementY flag in
  (forall k : nat,
     Z.of_nat k < Z.abs movementY ->
     (forall j : nat, (j < k)%nat ->
        isTouchingFloorOrCeiling cc down (boxAfter j) = false) ->
     isTouchingFloorOrCeiling cc down (boxAfter k) = true ->
     (down = true \/ flag = false -> result = (posAfter k, f32.zero)) /\
     (down = false /\ flag = true -> result = (posAfter k, f32.one))) /\
  ((forall j : nat, Z.of_nat j < Z.abs movementY ->
      isTouchingFloorOrCeiling cc down (boxAfter j) = false) ->
   result =
     (base.mkPoint (base.x currentPosition)
                   (base.y currentPosition + movementY),
      currentVelocity)).
Proof.
  cbv zeta. unfold applyVerticalMovement.
  destruct (Z.eq_dec movementY 0) as [->|Hm].
  - split.
    + intros k Hk. simpl in Hk. lia.
    + intros _. simpl. destruct currentPosition as [px py]; simpl.
      do 2 f_equal. lia.
  - rewrite <- (direction_sgn _ Hm). split.
    + intros k Hk Hclear Hhit.
      rewrite (verticalLoop_contact cc _ flag currentVelocity k);
        [| lia | exact Hclear | exact Hhit].
      unfold contactVelocity, base.stepY. split.
      * intros [-> | ->]; [reflexivity|].
        rewrite orb_true_r. reflexivity.
      * intros [-> ->]. reflexivity.
    + intros Hclear.
      rewrite verticalLoop_clear.
      * unfold base.stepY. do 2 f_equal.
        rewrite Z2Nat.id by lia. rewrite (direction_sgn _ Hm).
        rewrite <- (Z.abs_sgn movementY) at 3. lia.
      * intros j Hj. apply Hclear. lia.
Qed.

Lemma applyVerticalMovement_cases_witness :
  let b := toWorldSpace unitBox (base.mkPoint 10 10) in
  applyVerticalMovement (room 100 13 0) b (base.mkPoint 10 10) f32.two 3 true
    = (base.mkPoint 10 12, f32.zero) /\
  applyVerticalMovement (room 100 100 8) b (base.mkPoint 10 10)
    (f32.of_Z (-3)) (-3) true = (base.mkPoint 10 8, f32.one) /\
  applyVerticalMovement (room 100 100 0) b (base.mkPoint 10 10) f32.two 2 true
    = (base.mkPoint 10 12, f32.two).
Proof.
  cbv zeta. split; [|split].
  - apply (proj1 (applyVerticalMovement_cases (room 100 13 0)
                    (toWorldSpace unitBox (base.mkPoint 10 10))
                    (base.mkPoint 10 10) f32.two 3 true) 2%nat).
    + simpl. lia.
    + intros [|[|j]] Hj; [reflexivity | reflexivity | lia].
    + reflexivity.
    + left. reflexivity.
  - apply (proj1 (applyVerticalMovement_cases (room 100 100 8)
                    (toWorldSpace unitBox (base.mkPoint 10 10))
                    (base.mkPoint 10 10) (f32.of_Z (-3)) (-3) true) 2%nat).
    + simpl. lia.
    + intros [|[|j]] Hj; [reflexivity | reflexivity | lia].
    + reflexivity.
    + split; reflexivity.
  - apply (proj2 (applyVerticalMovement_cases (room 100 100 0)
                    (toWorldSpace unitBox (base.mkPoint 10 10))
                    (base.mkPoint 10 10) f32.two 2 true)).
    intros [|[|j]] Hj; [reflexivity | reflexivity | simpl in Hj; lia].
Defined.

(** ** What the resolvers guarantee about blocked boxes *)

Lemma horizontalLoop_path (cc : CollisionChecker) (right allow : bool)
    (n : nat) :
  forall (b : BoundingBox) (p : base.Vector),
  exists (k : nat) (b' : BoundingBox),
    (k <= n)%nat /\
    HorizontalPath cc right allow k (b, p)
      (b', horizontalLoop cc right allow n b p) /\
    ((k < n)%nat ->
       isTouchingWall cc right b' = true /\
       stairStepAccepted cc right allow b' = false).
Proof.
  induction n as [|n IH]; intros b p.
  - exists O, b. split; [lia|]. split; [constructor | lia].
  - rewrite horizontalLoop_S.
    destruct (isTouchingWall cc right b) eqn:Ht.
    + destruct (stairStepAccepted cc right allow b) eqn:Hs.
      * destruct (IH (base.moveY (base.moveX b (direction right)) (-1))
                     (base.stepY (base.stepX p (direction right)) (-1)))
          as (k & b' & Hk & Hp & Hstop).
        exists (S k), b'. split; [lia|]. split.
        -- apply HorizontalPath_stair; assumption.
        -- intros Hlt. apply Hstop. lia.
      * exists O, b. split; [lia|]. split; [constructor|].
        intros _. split; assumption.
    + destruct (IH (base.moveX b (direction right))
                   (base.stepX p (direction right)))
        as (k & b' & Hk & Hp & Hstop).
      exists (S k), b'. split; [lia|]. split.
      * apply HorizontalPath_advance; assumption.
      * intros Hlt. apply Hstop. lia.
Qed.

(** The vertical loop: the number of moves made, all of them from boxes
    the oracle reports clear. *)
Lemma verticalLoop_path (cc : CollisionChecker) (down flag : bool)
    (v : f32.float) (n : nat) :
  forall (b : BoundingBox) (p : base.Vector),
  exists k : nat,
    (k <= n)%nat /\
    fst (verticalLoop cc down flag v n b p) =
      base.stepY p (Z.of_nat k * direction down) /\
    (forall j : nat, (j < k)%nat ->
       isTouchingFloorOrCeiling cc down
         (base.moveY b (Z.of_nat j * direction down)) = false) /\
    ((k < n)%nat ->
       isTouchingFloorOrCeiling cc down
         (base.moveY b (Z.of_nat k * direction down)) = true).
Proof.
  induction n as [|n IH]; intros b p.
  - exists O. split; [lia|]. simpl. rewrite stepY_0.
    split; [reflexivity|]. split; intros; lia.
  - rewrite verticalLoop_S.
    destruct (isTouchingFloorOrCeiling cc down b) eqn:Ht.
    + exists O. split; [lia|]. simpl. rewrite stepY_0, moveY_0.
      split; [reflexivity|]. split; [intros; lia | intros _; exact Ht].
    + destruct (IH (base.moveY b (direction down))
                   (base.stepY p (direction down)))
        as (k & Hk & Hpos & Hclear & Hstop).
      exists (S k). split; [lia|]. split.
      * rewrite Hpos, stepY_stepY. f_equal. lia.
      * split.
        -- intros [|j] Hj.
           ++ change (Z.of_nat 0 * direction down) with 0.
              rewrite moveY_0. exact Ht.
           ++ specialize (Hclear j ltac:(lia)).
              rewrite moveY_moveY in Hclear.
              replace (Z.of_nat (S j) * direction down)
                with (direction down + Z.of_nat j * direction down) by lia.
              exact Hclear.
        -- intros Hlt. specialize (Hstop ltac:(lia)).
           rewrite moveY_moveY in Hstop.
           replace (Z.of_nat (S k) * direction down)
             with (direction down + Z.of_nat k * direction down) by lia.
           exact Hstop.
Qed.

(** C3 (as the code has it): every pixel the resolvers advance is a move
    out of a box the oracle reports clear on the side moved toward, or an
    accepted stair-step; the run has at most |steps| moves, and when it
    has fewer, the box at the returned position is one the oracle reports
    blocked (with no stair-step acceptable there). *)
Theorem resolvers_advance_from_clear_boxes (cc : CollisionChecker)
    (bbox : BoundingBox) (currentPosition : base.Vector)
    (v : f32.float) (movement : Z) (flag : bool) :
  (exists (k : nat) (b' : BoundingBox),
     Z.of_nat k <= Z.abs movement /\
     HorizontalPath cc (0 <? movement) flag k (bbox, currentPosition)
       (b', applyHorizontalMovement cc bbox currentPosition movement flag) /\
     (Z.of_nat k < Z.abs movement ->
        isTouchingWall cc (0 <? movement) b' = true /\
        stairStepAccepted cc (0 <? movement) flag b' = false)) /\
  (exists k : nat,
     Z.of_nat k <= Z.abs movement /\
     fst (applyVerticalMovement cc bbox currentPosition v movement flag) =
       base.stepY currentPosition (Z.of_nat k * direction (0 <? movement)) /\
     (forall j : nat, (j < k)%nat ->
        isTouchingFloorOrCeiling cc (0 <? movement)
          (base.moveY bbox (Z.of_nat j * direction (0 <? movement)))
          = false) /\
     (Z.of_nat k < Z.abs movement ->
        isTouchingFloorOrCeiling cc (0 <? movement)
          (base.moveY bbox (Z.of_nat k * direction (0 <? movement)))
          = true)).
Proof.
  split.
  - unfold applyHorizontalMovement.
    destruct (horizontalLoop_path cc (0 <? movement) flag
                (Z.to_nat (Z.abs movement)) bbox currentPosition)
      as (k & b' & Hk & Hp & Hstop).
    exists k, b'. split; [lia|]. split; [exact Hp|].
    intros Hlt. apply Hstop. lia.
  - unfold applyVerticalMovement.
    destruct (verticalLoop_path cc (0 <? movement) flag v
                (Z.to_nat (Z.abs movement)) bbox currentPosition)
      as (k & Hk & Hpos & Hclear & Hstop).
    exists k. split; [lia|]. split; [exact Hpos|]. split; [exact Hclear|].
    intros Hlt. apply Hstop. lia.
Qed.

(** C3 (counterexample to the claim as stated): with a wall two pixels to
    the right of an entity at (10,10) that moves by 3 and may not step up
    stairs, the horizontal resolver returns (12,10), and the oracle reports
    the world box at (12,10) as touching the wall on the right; likewise
    the vertical resolver, falling by 3 toward a floor two pixels below,
    returns (10,12), where the oracle reports solid ground. *)
Lemma resolvers_return_blocked_boxes :
  let cc := room 13 13 0 in
  let start := base.mkPoint 10 10 in
  let right := applyHorizontalMovement cc (toWorldSpace unitBox start)
                 start 3 false in
  let down := fst (applyVerticalMovement cc (toWorldSpace unitBox start)
                     start f32.two 3 true) in
  (right = base.mkPoint 12 10 /\
   isTouchingRightWall cc (toWorldSpace unitBox right) = true) /\
  (down = base.mkPoint 10 12 /\
   isOnSolidGround cc (toWorldSpace unitBox down) = true).
Proof. vm_compute. repeat split. Qed.

(** ** One tick *)

Lemma gravityStage_velocity (cc : CollisionChecker) (ph : Physical)
    (bbox : BoundingBox) :
  base.y (mVelocity (gravityStage cc ph bbox)) =
    velocityAfterGravity cc ph bbox.
Proof.
  unfold gravityStage, velocityAfterGravity.
  destruct (mGravityAffected ph); reflexivity.
Qed.

Lemma sameTraits_refl (ph : Physical) : sameTraits ph ph.
Proof. repeat split. Qed.

Lemma sameTraits_trans (a b c : Physical) :
  sameTraits a b -> sameTraits b c -> sameTraits a c.
Proof. unfold sameTraits. intros (?&?&?) (?&?&?). repeat split; congruence. Qed.

Lemma sameTraits_setVelocityY (ph : Physical) (v : f32.float) :
  sameTraits ph (setVelocityY ph v).
Proof. repeat split. Qed.

Lemma gravityStage_traits (cc : CollisionChecker) (ph : Physical)
    (bbox : BoundingBox) :
  sameTraits ph (gravityStage cc ph bbox).
Proof.
  unfold gravityStage. destruct (mGravityAffected ph);
    [apply sameTraits_setVelocityY | apply sameTraits_refl].
Qed.

Lemma verticalStage_traits (cc : CollisionChecker) (ph : Physical)
    (pos : WorldPosition) (bbox : BoundingBox) (m : Z) :
  sameTraits ph (snd (verticalStage cc ph pos bbox m)).
Proof.
  unfold verticalStage. destruct (negb (m =? 0));
    [|apply sameTraits_refl].
  destruct (applyVerticalMovement _ _ _ _ _ _). apply sameTraits_setVelocityY.
Qed.

(** The body of the lambda, read off stage by stage. *)
Lemma updateBody_Some (cc : CollisionChecker) (ph : Physical)
    (pos : WorldPosition) (rect : BoundingBox)
    (ph' : Physical) (pos' : WorldPosition) (c : bool) :
  updateBody cc ph pos rect = Some (ph', pos', c) <->
  exists movementX movementY : Z,
    let pos1 := horizontalStage cc ph pos rect movementX in
    let bbox := toWorldSpace rect pos1 in
    let ph1 := gravityStage cc ph bbox in
    f32.to_int16 (base.x (mVelocity ph)) = Some movementX /\
    f32.to_int16 (base.y (mVelocity ph1)) = Some movementY /\
    verticalStage cc ph1 pos1 bbox movementY = (pos', ph') /\
    c = base.neqb pos' (base.add pos (base.mkPoint movementX movementY)).
Proof.
  unfold updateBody. split.
  - intros H.
    destruct (f32.to_int16 (base.x (mVelocity ph))) as [mx|] eqn:Hx;
      [|discriminate]. simpl in H.
    destruct (f32.to_int16 _) as [my|] eqn:Hy in H; [|discriminate].
    simpl in H.
    destruct (verticalStage _ _ _ _ _) as [p2 ph2] eqn:Hv in H.
    injection H as <- <- <-.
    exists mx, my. cbv zeta. repeat split; assumption.
  - intros (mx & my & Hx & Hy & Hv & ->). cbv zeta in *.
    rewrite Hx. simpl. rewrite Hy. simpl. rewrite Hv. reflexivity.
Qed.

Lemma updateEntity_processed (cc : CollisionChecker) (e e' : Entity)
    (ph : Physical) (pos : WorldPosition) (rect : BoundingBox) :
  processed e ph pos rect ->
  updateEntity cc e = Some e' ->
  exists ph' pos' c,
    updateBody cc ph pos rect = Some (ph', pos', c) /\
    e' = mkEntity (Some ph') (Some pos') (Some rect) true c.
Proof.
  intros (Hph & Hpos & Hrect & Hact) H. unfold updateEntity in H.
  rewrite Hph, Hpos, Hrect, Hact in H.
  destruct (updateBody cc ph pos rect) as [[[ph' pos'] c]|]; [|discriminate].
  simpl in H. injection H as <-. exists ph', pos', c. split; reflexivity.
Qed.

Lemma updateEntity_skipped (cc : CollisionChecker) (e : Entity) :
  (forall ph pos rect, ~ processed e ph pos rect) ->
  updateEntity cc e = Some e.
Proof.
  intros H. unfold updateEntity.
  destruct (physical e) as [ph|] eqn:Hph; [|reflexivity].
  destruct (worldPosition e) as [pos|] eqn:Hpos; [|reflexivity].
  destruct (boundingBox e) as [rect|] eqn:Hrect; [|reflexivity].
  destruct (active e) eqn:Hact; [|reflexivity].
  exfalso. apply (H ph pos rect). repeat split; assumption.
Qed.

(** Scenarios A, B and C of the specification. *)
Example scenario_A :
  updateEntity (room 100 100 0) (activeEntity walker (base.mkPoint 10 10) true)
    = Some (activeEntity walker (base.mkPoint 13 10) false).
Proof. vm_compute. reflexivity. Qed.

Example scenario_B :
  updateEntity (room 13 100 0) (activeEntity walker (base.mkPoint 10 10) false)
    = Some (activeEntity walker (base.mkPoint 12 10) true).
Proof. vm_compute. reflexivity. Qed.

Example scenario_C :
  updateEntity (room 100 100 0) (activeEntity rester (base.mkPoint 10 10) false)
    = Some (activeEntity (setVelocityY rester f32.one)
              (base.mkPoint 10 11) false).
Proof. vm_compute. reflexivity. Qed.

(** C2: for an entity processed in a tick, the CollidedWithWorld marker is
    present afterwards iff the displacement of its position over the tick
    differs from (stepsX, stepsY), where stepsX is velocity.x truncated
    before the horizontal movement and stepsY is velocity.y truncated after
    gravity was applied (to the box at the position the horizontal
    movement reached). *)
Theorem collided_iff_displacement_differs (cc : CollisionChecker)
    (e e' : Entity) (ph : Physical) (pos : WorldPosition)
    (rect : BoundingBox) :
  processed e ph pos rect ->
  updateEntity cc e = Some e' ->
  exists (stepsX stepsY : Z) (pos' : WorldPosition),
    f32.to_int16 (base.x (mVelocity ph)) = Some stepsX /\
    f32.to_int16
      (velocityAfterGravity cc ph
         (toWorldSpace rect (horizontalStage cc ph pos rect stepsX)))
      = Some stepsY /\
    worldPosition e' = Some pos' /\
    (collidedWithWorld e' = true <->
       base.sub pos' pos <> base.mkPoint stepsX stepsY).
Proof.
  intros Hproc Hupd.
  destruct (updateEntity_processed cc e e' ph pos rect Hproc Hupd)
    as (ph' & pos' & c & Hbody & ->).
  apply updateBody_Some in Hbody.
  destruct Hbody as (mx & my & Hx & Hy & Hv & ->). cbv zeta in *.
  rewrite gravityStage_velocity in Hy.
  exists mx, my, pos'. repeat split; try assumption; simpl.
  - intros Hc. apply base_neqb_true in Hc. intros Heq. apply Hc.
    destruct pos as [px py], pos' as [qx qy].
    unfold base.sub, base.add in *; simpl in *.
    injection Heq as Hx' Hy'. f_equal; lia.
  - intros Hne. apply base_neqb_true. intros Heq. apply Hne.
    rewrite Heq. destruct pos as [px py].
    unfold base.sub, base.add; simpl. f_equal; lia.
Qed.

Lemma collided_iff_displacement_differs_witness :
  let e := activeEntity walker (base.mkPoint 10 10) false in
  let e' := activeEntity walker (base.mkPoint 12 10) true in
  (processed e walker (base.mkPoint 10 10) unitBox /\
   updateEntity (room 13 100 0) e = Some e') /\
  exists (stepsX stepsY : Z) (pos' : WorldPosition),
    f32.to_int16 (base.x (mVelocity walker)) = Some stepsX /\
    f32.to_int16
      (velocityAfterGravity (room 13 100 0) walker
         (toWorldSpace unitBox
            (horizontalStage (room 13 100 0) walker (base.mkPoint 10 10)
               unitBox stepsX)))
      = Some stepsY /\
    worldPosition e' = Some pos' /\
    (collidedWithWorld e' = true <->
       base.sub pos' (base.mkPoint 10 10) <> base.mkPoint stepsX stepsY).
Proof.
  cbv zeta. split; [split; [repeat split | reflexivity]|].
  apply (collided_iff_displacement_differs (room 13 100 0)
           (activeEntity walker (base.mkPoint 10 10) false)
           (activeEntity walker (base.mkPoint 12 10) true)
           walker (base.mkPoint 10 10) unitBox).
  - repeat split.
  - reflexivity.
Defined.

Lemma setVelocityY_same (ph : Physical) :
  setVelocityY ph (base.y (mVelocity ph)) = ph.
Proof. destruct ph as [[vx vy] g s]. reflexivity. Qed.

(** C7: an entity at rest -- velocity (0,0), world box on solid ground --
    comes out of a tick with the same position and velocity (and every
    other component), and without the CollidedWithWorld marker. *)
Theorem resting_entity_unmoved (cc : CollisionChecker) (e : Entity)
    (ph : Physical) (pos : WorldPosition) (rect : BoundingBox) :
  processed e ph pos rect ->
  f32.eqb (base.x (mVelocity ph)) f32.zero = true ->
  f32.eqb (base.y (mVelocity ph)) f32.zero = true ->
  isOnSolidGround cc (toWorldSpace rect pos) = true ->
  updateEntity cc e = Some (mkEntity (Some ph) (Some pos) (Some rect) true false).
Proof.
  intros (Hph & Hpos & Hrect & Hact) Hvx Hvy Hground.
  unfold updateEntity. rewrite Hph, Hpos, Hrect, Hact.
  assert (Hbody : updateBody cc ph pos rect = Some (ph, pos, false)).
  { apply updateBody_Some. exists 0, 0. cbv zeta.
    assert (Hg : gravityStage cc ph (toWorldSpace rect pos) = ph).
    { unfold gravityStage, applyGravity. rewrite Hvy, Hground.
      destruct (mGravityAffected ph);
        [apply setVelocityY_same | reflexivity]. }
    change (horizontalStage cc ph pos rect 0) with pos.
    rewrite Hg. split; [apply to_int16_zero; assumption|].
    split; [apply to_int16_zero; assumption|].
    split; [reflexivity|].
    symmetry. unfold base.neqb. apply negb_false_iff, base_eqb_eq.
    destruct pos as [px py]. unfold base.add; simpl. f_equal; lia. }
  rewrite Hbody. reflexivity.
Qed.

Lemma resting_entity_unmoved_witness :
  let e := activeEntity rester (base.mkPoint 10 10) true in
  (processed e rester (base.mkPoint 10 10) unitBox /\
   isOnSolidGround (room 100 11 0)
     (toWorldSpace unitBox (base.mkPoint 10 10)) = true) /\
  updateEntity (room 100 11 0) e
    = Some (mkEntity (Some rester) (Some (base.mkPoint 10 10))
              (Some unitBox) true false).
Proof.
  cbv zeta. split; [split; [repeat split | reflexivity]|].
  apply (resting_entity_unmoved (room 100 11 0)
           (activeEntity rester (base.mkPoint 10 10) true)
           rester (base.mkPoint 10 10) unitBox).
  - repeat split.
  - reflexivity.
  - reflexivity.
  - reflexivity.
Defined.

Lemma frame_refl (e : Entity) : frame e e.
Proof.
  unfold frame. repeat split; try tauto.
  destruct (physical e); [apply sameTraits_refl | exact I].
Qed.

Lemma updateBody_traits (cc : CollisionChecker) (ph : Physical)
    (pos : WorldPosition) (rect : BoundingBox)
    (ph' : Physical) (pos' : WorldPosition) (c : bool) :
  updateBody cc ph pos rect = Some (ph', pos', c) -> sameTraits ph ph'.
Proof.
  intros H. apply updateBody_Some in H.
  destruct H as (mx & my & _ & _ & Hv & _). cbv zeta in Hv.
  eapply sameTraits_trans; [apply gravityStage_traits|].
  pose proof (verticalStage_traits cc
    (gravityStage cc ph
       (toWorldSpace rect (horizontalStage cc ph pos rect mx)))
    (horizontalStage cc ph pos rect mx)
    (toWorldSpace rect (horizontalStage cc ph pos rect mx)) my) as Ht.
  rewrite Hv in Ht. exact Ht.
Qed.

Lemma updateEntity_frame (cc : CollisionChecker) (e e' : Entity) :
  updateEntity cc e = Some e' ->
  frame e e' /\ ((forall ph pos rect, ~ processed e ph pos rect) -> e' = e).
Proof.
  intros H. split.
  - destruct (physical e) as [ph|] eqn:Hph;
      [destruct (worldPosition e) as [pos|] eqn:Hpos;
       [destruct (boundingBox e) as [rect|] eqn:Hrect;
        [destruct (active e) eqn:Hact|]|]|].
    + destruct (updateEntity_processed cc e e' ph pos rect) as
        (ph' & pos' & c & Hbody & ->); [repeat split; assumption | exact H |].
      unfold frame; simpl. rewrite Hph, Hpos, Hrect, Hact.
      repeat split; try (intros _; eexists; reflexivity).
      all: apply (updateBody_traits _ _ _ _ _ _ _ Hbody).
    + unfold updateEntity in H. rewrite Hph, Hpos, Hrect, Hact in H.
      injection H as <-. apply frame_refl.
    + unfold updateEntity in H. rewrite Hph, Hpos, Hrect in H.
      injection H as <-. apply frame_refl.
    + unfold updateEntity in H. rewrite Hph, Hpos in H.
      injection H as <-. apply frame_refl.
    + unfold updateEntity in H. rewrite Hph in H.
      injection H as <-. apply frame_refl.
  - intros Hskip. rewrite (updateEntity_skipped cc e Hskip) in H.
    injection H as <-. reflexivity.
Qed.

(** C8: a tick changes, in a processed entity, only Position, Velocity.y
    and the CollidedWithWorld marker: velocity.x, the local bounding box,
    the gravityAffected and canStepUpStairs traits and the Active marker
    are as before, for every entity of the store; entities that are not
    processed are unchanged altogether. The checker is passed in as a
    read-only value and [update] returns only the entity store. *)
Theorem update_frame (cc : CollisionChecker) (es es' : EntityManager) :
  update cc es = Some es' ->
  length es' = length es /\
  forall (i : nat) (e : Entity),
    es !! i = Some e ->
    exists e' : Entity,
      es' !! i = Some e' /\
      frame e e' /\
      ((forall ph pos rect, ~ processed e ph pos rect) -> e' = e).
Proof.
  unfold update. intros H. apply mapM_Some in H. split.
  - symmetry. eapply Forall2_length. exact H.
  - intros i e Hi.
    eapply Forall2_lookup_l in H as (e' & Hi' & Hupd); [|exact Hi].
    exists e'. split; [exact Hi'|]. apply (updateEntity_frame cc). exact Hupd.
Qed.

Lemma update_frame_witness :
  let es :=
    [activeEntity walker (base.mkPoint 10 10) false;
     mkEntity (Some rester) (Some (base.mkPoint 0 0)) None true true;
     activeEntity rester (base.mkPoint 10 10) false] in
  let es' :=
    [activeEntity walker (base.mkPoint 12 10) true;
     mkEntity (Some rester) (Some (base.mkPoint 0 0)) None true true;
     activeEntity (setVelocityY rester f32.one) (base.mkPoint 10 11) false] in
  update (room 13 100 0) es = Some es' /\
  length es' = length es /\
  forall (i : nat) (e : Entity),
    es !! i = Some e ->
    exists e' : Entity,
      es' !! i = Some e' /\
      frame e e' /\
      ((forall ph pos rect, ~ processed e ph pos rect) -> e' = e).
Proof.
  cbv zeta. split; [reflexivity|].
  apply (update_frame (room 13 100 0)). reflexivity.
Defined.

(** ** The ceiling-hit flag *)

(** Once some box within the loop's reach reports contact, the loop
    returns the contact velocity. *)
Lemma verticalLoop_contact_velocity (cc : CollisionChecker)
    (down flag : bool) (v : f32.float) (n k : nat)
    (b : BoundingBox) (p : base.Vector) :
  (k < n)%nat ->
  isTouchingFloorOrCeiling cc down
    (base.moveY b (Z.of_nat k * direction down)) = true ->
  snd (verticalLoop cc down flag v n b p) = contactVelocity down flag.
Proof.
  intros Hk Hhit.
  destruct (verticalLoop_path cc down flag v n b p)
    as (k' & Hk' & _ & Hclear & Hstop).
  destruct (Nat.lt_ge_cases k k') as [Hlt|Hge].
  - rewrite (Hclear k Hlt) in Hhit. discriminate.
  - rewrite (verticalLoop_contact cc down flag v k' n b p);
      [reflexivity | lia | exact Hclear | apply Hstop; lia].
Qed.

(** C9: the flag [update] passes to the vertical resolver is the entity's
    gravityAffected trait; so an entity that moves up and meets a ceiling
    within its steps leaves the tick with velocity.y 1.0 when it is
    gravity-affected and 0.0 when it is not. *)
Theorem ceiling_hit_flag_is_gravityAffected (cc : CollisionChecker)
    (ph : Physical) (pos : WorldPosition) (rect : BoundingBox)
    (ph' : Physical) (pos' : WorldPosition) (c : bool)
    (stepsX stepsY : Z) :
  updateBody cc ph pos rect = Some (ph', pos', c) ->
  f32.to_int16 (base.x (mVelocity ph)) = Some stepsX ->
  let pos1 := horizontalStage cc ph pos rect stepsX in
  let bbox := toWorldSpace rect pos1 in
  let vy := velocityAfterGravity cc ph bbox in
  f32.to_int16 vy = Some stepsY ->
  stepsY < 0 ->
  (pos', base.y (mVelocity ph')) =
    applyVerticalMovement cc bbox pos1 vy stepsY (mGravityAffected ph) /\
  forall k : nat,
    Z.of_nat k < - stepsY ->
    isTouchingCeiling cc (base.moveY bbox (- Z.of_nat k)) = true ->
    base.y (mVelocity ph') =
      if mGravityAffected ph then f32.one else f32.zero.
Proof.
  intros Hbody Hx pos1 bbox vy Hy Hneg.
  apply updateBody_Some in Hbody.
  destruct Hbody as (mx & my & Hx' & Hy' & Hv & _). cbv zeta in *.
  rewrite Hx in Hx'. injection Hx' as <-.
  rewrite gravityStage_velocity in Hy'. fold pos1 bbox vy in Hy', Hv.
  rewrite Hy in Hy'. injection Hy' as <-.
  unfold verticalStage in Hv.
  replace (negb (stepsY =? 0)) with true in Hv
    by (symmetry; apply negb_true_iff, Z.eqb_neq; lia).
  rewrite gravityStage_velocity in Hv. fold vy in Hv.
  assert (Hg : mGravityAffected (gravityStage cc ph bbox)
               = mGravityAffected ph)
    by apply gravityStage_traits.
  rewrite Hg in Hv.
  destruct (applyVerticalMovement cc bbox pos1 vy stepsY
              (mGravityAffected ph)) as [p2 v2] eqn:Hvm.
  injection Hv as <- <-. split; [reflexivity|].
  intros k Hk Hhit. simpl.
  unfold applyVerticalMovement in Hvm.
  replace (0 <? stepsY) with false in Hvm
    by (symmetry; apply Z.ltb_ge; lia).
  pose proof (verticalLoop_contact_velocity cc false
                (mGravityAffected ph) vy (Z.to_nat (Z.abs stepsY)) k
                bbox pos1) as Hc.
  rewrite Hvm in Hc. simpl in Hc. rewrite Hc.
  - unfold contactVelocity. destruct (mGravityAffected ph); reflexivity.
  - lia.
  - replace (Z.of_nat k * -1) with (- Z.of_nat k) by lia. exact Hhit.
Qed.

Lemma ceiling_hit_flag_is_gravityAffected_witness :
  let pos := base.mkPoint 10 10 in
  (updateBody (room 100 100 9) (jumper true) pos unitBox
     = Some (setVelocityY (jumper true) f32.one, base.mkPoint 10 9, true) /\
   updateBody (room 100 100 9) (jumper false) pos unitBox
     = Some (setVelocityY (jumper false) f32.zero, base.mkPoint 10 9, true)) /\
  base.y (mVelocity (setVelocityY (jumper true) f32.one)) = f32.one /\
  base.y (mVelocity (setVelocityY (jumper false) f32.zero)) = f32.zero.
Proof.
  cbv zeta. split; [split; reflexivity|]. split.
  - apply (proj2 (ceiling_hit_flag_is_gravityAffected (room 100 100 9)
                    (jumper true) (base.mkPoint 10 10) unitBox
                    (setVelocityY (jumper true) f32.one) (base.mkPoint 10 9)
                    true 0 (-2) eq_refl eq_refl eq_refl ltac:(lia)) 1%nat).
    + simpl. lia.
    + reflexivity.
  - apply (proj2 (ceiling_hit_flag_is_gravityAffected (room 100 100 9)
                    (jumper false) (base.mkPoint 10 10) unitBox
                    (setVelocityY (jumper false) f32.zero) (base.mkPoint 10 9)
                    true 0 (-3) eq_refl eq_refl eq_refl ltac:(lia)) 1%nat).
    + simpl. lia.
    + reflexivity.
Defined.

(** * Further properties of the code *)

(** ** The tracked box and the world box *)

Lemma toWorldSpace_stepX (rect : BoundingBox) (p : base.Vector) (d : Z) :
  toWorldSpace rect (base.stepX p d) = base.moveX (toWorldSpace rect p) d.
Proof.
  unfold toWorldSpace, base.translate, base.add, base.moveX, base.stepX;
    simpl. do 2 f_equal. lia.
Qed.

Lemma toWorldSpace_stepY (rect : BoundingBox) (p : base.Vector) (d : Z) :
  toWorldSpace rect (base.stepY p d) = base.moveY (toWorldSpace rect p) d.
Proof.
  unfold toWorldSpace, base.translate, base.add, base.moveY, base.stepY;
    simpl. do 2 f_equal. lia.
Qed.

Lemma HorizontalPath_lockstep (cc : CollisionChecker) (right allow : bool)
    (rect : BoundingBox) (k : nat) (s s' : BoundingBox * base.Vector) :
  HorizontalPath cc right allow k s s' ->
  fst s = toWorldSpace rect (snd s) ->
  fst s' = toWorldSpace rect (snd s').
Proof.
  induction 1 as [s|k b p s' Hclear Hpath IH|k b p s' Ht Hacc Hpath IH];
    simpl; intros Hs.
  - exact Hs.
  - apply IH. simpl. rewrite toWorldSpace_stepX, Hs. reflexivity.
  - apply IH. simpl.
    rewrite toWorldSpace_stepY, toWorldSpace_stepX, Hs. reflexivity.
Qed.

(** X1: the box the horizontal resolver has advanced to when it returns
    is the world box of the position it returns: started on
    [toWorldSpace collisionRect position], its run ends on
    [toWorldSpace collisionRect newPosition], which is the box [update]
    recomputes after the horizontal movement. *)
Theorem tracked_box_is_world_box (cc : CollisionChecker)
    (collisionRect : BoundingBox) (position : base.Vector) (movementX : Z)
    (allowStairStepping : bool) :
  let newPosition :=
    applyHorizontalMovement cc (toWorldSpace collisionRect position)
      position movementX allowStairStepping in
  exists k : nat,
    Z.of_nat k <= Z.abs movementX /\
    HorizontalPath cc (0 <? movementX) allowStairStepping k
      (toWorldSpace collisionRect position, position)
      (toWorldSpace collisionRect newPosition, newPosition).
Proof.
  cbv zeta. unfold applyHorizontalMovement.
  destruct (horizontalLoop_path cc (0 <? movementX) allowStairStepping
              (Z.to_nat (Z.abs movementX))
              (toWorldSpace collisionRect position) position)
    as (k & b' & Hk & Hp & _).
  exists k. split; [lia|].
  pose proof (HorizontalPath_lockstep _ _ _ collisionRect _ _ _ Hp eq_refl)
    as Hb.
  simpl in Hb. rewrite <- Hb. exact Hp.
Qed.

(** ** Horizontal movement without obstruction or without stairs *)

Lemma moveX_0 (b : BoundingBox) : base.moveX b 0 = b.
Proof.
  destruct b as [[bx by_] sz]. unfold base.moveX; simpl.
  do 2 f_equal. lia.
Qed.

Lemma stepX_stepX (p : base.Vector) (c d : Z) :
  base.stepX (base.stepX p c) d = base.stepX p (c + d).
Proof. unfold base.stepX; simpl. f_equal. lia. Qed.

Lemma stepX_0 (p : base.Vector) : base.stepX p 0 = p.
Proof. destruct p as [px py]. unfold base.stepX; simpl. f_equal. lia. Qed.

Lemma horizontalLoop_clear (cc : CollisionChecker) (right allow : bool)
    (n : nat) :
  forall (b : BoundingBox) (p : base.Vector),
    (forall j : nat, (j < n)%nat ->
       isTouchingWall cc right
         (base.moveX b (Z.of_nat j * direction right)) = false) ->
    horizontalLoop cc right allow n b p =
      base.stepX p (Z.of_nat n * direction right).
Proof.
  induction n as [|n IH]; intros b p Hclear.
  - simpl. rewrite stepX_0. reflexivity.
  - rewrite horizontalLoop_S.
    pose proof (Hclear O ltac:(lia)) as H0.
    change (Z.of_nat 0 * direction right) with 0 in H0.
    rewrite moveX_0 in H0. rewrite H0, IH.
    + rewrite stepX_stepX. f_equal. lia.
    + intros j Hj. rewrite moveX_moveX.
      specialize (Hclear (S j) ltac:(lia)).
      replace (direction right + Z.of_nat j * direction right)
        with (Z.of_nat (S j) * direction right) by lia.
      exact Hclear.
Qed.

Lemma horizontalLoop_blocked (cc : CollisionChecker) (right : bool)
    (k : nat) :
  forall (n : nat) (b : BoundingBox) (p : base.Vector),
    (k < n)%nat ->
    (forall j : nat, (j < k)%nat ->
       isTouchingWall cc right
         (base.moveX b (Z.of_nat j * direction right)) = false) ->
    isTouchingWall cc right
      (base.moveX b (Z.of_nat k * direction right)) = true ->
    horizontalLoop cc right false n b p =
      base.stepX p (Z.of_nat k * direction right).
Proof.
  induction k as [|k IH]; intros n b p Hlt Hclear Hhit.
  - destruct n as [|n]; [lia|]. rewrite horizontalLoop_S.
    change (Z.of_nat 0 * direction right) with 0 in *.
    rewrite moveX_0 in Hhit. rewrite Hhit, stepX_0. reflexivity.
  - destruct n as [|n]; [lia|]. rewrite horizontalLoop_S.
    pose proof (Hclear O ltac:(lia)) as H0.
    change (Z.of_nat 0 * direction right) with 0 in H0.
    rewrite moveX_0 in H0. rewrite H0.
    rewrite (IH n); [| lia | |].
    + rewrite stepX_stepX. f_equal. lia.
    + intros j Hj. rewrite moveX_moveX.
      specialize (Hclear (S j) ltac:(lia)).
      replace (direction right + Z.of_nat j * direction right)
        with (Z.of_nat (S j) * direction right) by lia.
      exact Hclear.
    + rewrite moveX_moveX.
      replace (direction right + Z.of_nat k * direction right)
        with (Z.of_nat (S k) * direction right) by lia.
      exact Hhit.
Qed.

(** X2: when none of the |movementX| boxes along the way reports contact
    on the leading edge, the horizontal resolver returns the position
    moved by movementX in x, with y unchanged, whether or not stair-stepping
    is allowed. *)
Theorem unobstructed_horizontal_movement (cc : CollisionChecker)
    (bbox : BoundingBox) (currentPosition : base.Vector) (movementX : Z)
    (allowStairStepping : bool) :
  (forall j : nat, Z.of_nat j < Z.abs movementX ->
     isTouchingWall cc (0 <? movementX)
       (base.moveX bbox (Z.of_nat j * Z.sgn movementX)) = false) ->
  applyHorizontalMovement cc bbox currentPosition movementX
    allowStairStepping =
    base.mkPoint (base.x currentPosition + movementX)
                 (base.y currentPosition).
Proof.
  intros Hclear. unfold applyHorizontalMovement.
  destruct (Z.eq_dec movementX 0) as [->|Hm].
  - simpl. destruct currentPosition as [px py]. simpl. f_equal. lia.
  - rewrite horizontalLoop_clear.
    + unfold base.stepX. f_equal.
      rewrite Z2Nat.id by lia. rewrite (direction_sgn _ Hm).
      rewrite <- (Z.abs_sgn movementX) at 3. lia.
    + intros j Hj. rewrite (direction_sgn _ Hm). apply Hclear. lia.
Qed.

Lemma unobstructed_horizontal_movement_witness :
  let b := toWorldSpace unitBox (base.mkPoint 10 10) in
  applyHorizontalMovement (room 100 100 0) b (base.mkPoint 10 10) 3 true
    = base.mkPoint 13 10 /\
  applyHorizontalMovement (room 100 100 0) b (base.mkPoint 10 10) (-2) false
    = base.mkPoint 8 10.
Proof.
  cbv zeta. split.
  - apply (unobstructed_horizontal_movement (room 100 100 0)
             (toWorldSpace unitBox (base.mkPoint 10 10))
             (base.mkPoint 10 10) 3 true).
    intros [|[|[|j]]] Hj; [reflexivity | reflexivity | reflexivity |].
    simpl in Hj. lia.
  - apply (unobstructed_horizontal_movement (room 100 100 0)
             (toWorldSpace unitBox (base.mkPoint 10 10))
             (base.mkPoint 10 10) (-2) false).
    intros j Hj. reflexivity.
Defined.

(** X3: without stair-stepping, the horizontal resolver stops at the
    first box, [k] pixels along, that reports contact on the leading edge:
    it returns the position moved by [k] pixels in the direction of
    movementX, with y unchanged. *)
Theorem blocked_horizontal_movement (cc : CollisionChecker)
    (bbox : BoundingBox) (currentPosition : base.Vector) (movementX : Z)
    (k : nat) :
  Z.of_nat k < Z.abs movementX ->
  (forall j : nat, (j < k)%nat ->
     isTouchingWall cc (0 <? movementX)
       (base.moveX bbox (Z.of_nat j * Z.sgn movementX)) = false) ->
  isTouchingWall cc (0 <? movementX)
    (base.moveX bbox (Z.of_nat k * Z.sgn movementX)) = true ->
  applyHorizontalMovement cc bbox currentPosition movementX false =
    base.mkPoint (base.x currentPosition + Z.of_nat k * Z.sgn movementX)
                 (base.y currentPosition).
Proof.
  intros Hk Hclear Hhit. unfold applyHorizontalMovement.
  assert (Hm : movementX <> 0) by lia.
  rewrite <- (direction_sgn _ Hm) in *.
  rewrite (horizontalLoop_blocked cc _ k); [reflexivity | lia | |]; assumption.
Qed.

Lemma blocked_horizontal_movement_witness :
  applyHorizontalMovement (room 13 100 0)
    (toWorldSpace unitBox (base.mkPoint 10 10)) (base.mkPoint 10 10) 3 false
    = base.mkPoint 12 10.
Proof.
  apply (blocked_horizontal_movement (room 13 100 0)
           (toWorldSpace unitBox (base.mkPoint 10 10))
           (base.mkPoint 10 10) 3 2%nat).
  - simpl. lia.
  - intros [|[|j]] Hj; [reflexivity | reflexivity | lia].
  - reflexivity.
Defined.

(** ** More on the vertical resolver *)

(** X4: the vertical resolver never changes x, and moves y by at most
    |movementY| pixels, in the direction of movementY or not at all. *)
Theorem applyVerticalMovement_bounds (cc : CollisionChecker)
    (bbox : BoundingBox) (currentPosition : base.Vector)
    (currentVelocity : f32.float) (movementY : Z) (flag : bool) :
  let newPosition :=
    fst (applyVerticalMovement cc bbox currentPosition currentVelocity
           movementY flag) in
  base.x newPosition = base.x currentPosition /\
  0 <= (base.y newPosition - base.y currentPosition) * Z.sgn movementY
    <= Z.abs movementY.
Proof.
  cbv zeta. unfold applyVerticalMovement.
  destruct (verticalLoop_path cc (0 <? movementY) flag currentVelocity
              (Z.to_nat (Z.abs movementY)) bbox currentPosition)
    as (k & Hk & Hpos & _).
  rewrite Hpos. simpl. split; [reflexivity|].
  destruct (Z.eq_dec movementY 0) as [->|Hm].
  - simpl in *. lia.
  - rewrite (direction_sgn _ Hm). lia.
Qed.

(** X5: the vertical resolver either makes the full move and returns the
    input velocity, or stops short of it and returns the contact velocity
    (0.0, or 1.0 when moving up with the begin-falling flag set); nothing
    else. *)
Theorem applyVerticalMovement_velocity (cc : CollisionChecker)
    (bbox : BoundingBox) (currentPosition : base.Vector)
    (currentVelocity : f32.float) (movementY : Z) (flag : bool) :
  let result :=
    applyVerticalMovement cc bbox currentPosition currentVelocity
      movementY flag in
  let full :=
    base.mkPoint (base.x currentPosition)
                 (base.y currentPosition + movementY) in
  (fst result = full /\ snd result = currentVelocity) \/
  (fst result <> full /\
   snd result = contactVelocity (0 <? movementY) flag).
Proof.
  cbv zeta. unfold applyVerticalMovement.
  set (n := Z.to_nat (Z.abs movementY)).
  destruct (verticalLoop_path cc (0 <? movementY) flag currentVelocity
              n bbox currentPosition)
    as (k & Hk & _ & Hclear & Hstop).
  destruct (Nat.eq_dec k n) as [->|Hne].
  - left. rewrite (verticalLoop_clear cc _ flag currentVelocity n _ _ Hclear).
    simpl. split; [|reflexivity]. unfold base.stepY. f_equal.
    unfold n. rewrite Z2Nat.id by lia.
    destruct (Z.eq_dec movementY 0) as [->|Hm]; [reflexivity|].
    rewrite (direction_sgn _ Hm).
    rewrite <- (Z.abs_sgn movementY) at 3. lia.
  - right.
    rewrite (verticalLoop_contact cc _ flag currentVelocity k n);
      [| lia | exact Hclear | apply Hstop; lia].
    simpl. split; [|reflexivity].
    unfold base.stepY. intros Heq. injection Heq as Hy.
    assert (Hm : movementY <> 0) by (unfold n in *; lia).
    rewrite (direction_sgn _ Hm) in Hy.
    assert (Z.of_nat k < Z.abs movementY) by (unfold n in *; lia).
    lia.
Qed.

(** ** More on one tick *)

Lemma horizontalStage_bounds (cc : CollisionChecker) (ph : Physical)
    (pos : WorldPosition) (rect : BoundingBox) (m : Z) :
  let p := horizontalStage cc ph pos rect m in
  base.y pos - Z.abs m <= base.y p <= base.y pos /\
  0 <= (base.x p - base.x pos) * Z.sgn m <= Z.abs m.
Proof.
  cbv zeta. unfold horizontalStage.
  destruct (Z.eqb_spec m 0) as [->|Hm]; simpl.
  - lia.
  - unfold applyHorizontalMovement.
    pose proof (horizontalLoop_bounds cc (0 <? m) (mCanStepUpStairs ph)
                  (Z.to_nat (Z.abs m)) (toWorldSpace rect pos) pos) as H.
    cbv zeta in H. rewrite Z2Nat.id in H by lia.
    rewrite (direction_sgn _ Hm) in H. lia.
Qed.

Lemma verticalStage_position (cc : CollisionChecker) (ph : Physical)
    (pos : WorldPosition) (bbox : BoundingBox) (m : Z) :
  exists k : nat,
    Z.of_nat k <= Z.abs m /\
    fst (verticalStage cc ph pos bbox m) =
      base.stepY pos (Z.of_nat k * Z.sgn m) /\
    (forall j : nat, (j < k)%nat ->
       isTouchingFloorOrCeiling cc (0 <? m)
         (base.moveY bbox (Z.of_nat j * Z.sgn m)) = false).
Proof.
  unfold verticalStage.
  destruct (Z.eqb_spec m 0) as [->|Hm]; simpl.
  - exists O. split; [lia|]. simpl. rewrite stepY_0.
    split; [reflexivity | intros; lia].
  - unfold applyVerticalMovement.
    destruct (verticalLoop_path cc (0 <? m) (mGravityAffected ph)
                (base.y (mVelocity ph)) (Z.to_nat (Z.abs m)) bbox pos)
      as (k & Hk & Hpos & Hclear & _).
    rewrite <- (direction_sgn _ Hm).
    exists k. split; [lia|]. split; [|exact Hclear].
    destruct (verticalLoop _ _ _ _ _ _ _) as [p v]. exact Hpos.
Qed.



Lemma neqb_false_add (p : base.Vector) (dx dy : Z) :
  base.neqb (base.mkPoint (base.x p + dx) (base.y p + dy))
            (base.add p (base.mkPoint dx dy)) = false.
Proof.
  unfold base.neqb. apply negb_false_iff, base_eqb_eq. reflexivity.
Qed.

(** X7: a gravity-affected entity at rest (velocity (0,0)) whose world box
    is not on solid ground starts to fall in the same tick: velocity.y
    becomes 1.0, the position moves down by one pixel, and CollidedWithWorld
    is absent; the vertical resolver's first ground query is the one the
    gravity model just made. *)
Theorem airborne_entity_starts_falling (cc : CollisionChecker) (e : Entity)
    (ph : Physical) (pos : WorldPosition) (rect : BoundingBox) :
  processed e ph pos rect ->
  mGravityAffected ph = true ->
  f32.eqb (base.x (mVelocity ph)) f32.zero = true ->
  f32.eqb (base.y (mVelocity ph)) f32.zero = true ->
  isOnSolidGround cc (toWorldSpace rect pos) = false ->
  updateEntity cc e =
    Some (mkEntity (Some (setVelocityY ph f32.one))
            (Some (base.mkPoint (base.x pos) (base.y pos + 1)))
            (Some rect) true false).
Proof.
  intros (Hph & Hpos & Hrect & Hact) Hgrav Hvx Hvy Hair.
  unfold updateEntity. rewrite Hph, Hpos, Hrect, Hact.
  assert (Hbody : updateBody cc ph pos rect =
                  Some (setVelocityY ph f32.one,
                        base.mkPoint (base.x pos) (base.y pos + 1), false)).
  { apply updateBody_Some. exists 0, 1. cbv zeta.
    change (horizontalStage cc ph pos rect 0) with pos.
    assert (Hg : gravityStage cc ph (toWorldSpace rect pos)
                 = setVelocityY ph f32.one).
    { unfold gravityStage, applyGravity. rewrite Hgrav, Hvy, Hair.
      reflexivity. }
    rewrite Hg. split; [apply to_int16_zero; assumption|].
    split; [reflexivity|]. split.
    - unfold verticalStage, applyVerticalMovement. simpl.
      rewrite Hair. reflexivity.
    - symmetry. replace (base.x pos) with (base.x pos + 0) at 1 by lia.
      apply neqb_false_add. }
  rewrite Hbody. reflexivity.
Qed.

Lemma airborne_entity_starts_falling_witness :
  let e := activeEntity rester (base.mkPoint 10 10) true in
  (processed e rester (base.mkPoint 10 10) unitBox /\
   isOnSolidGround (room 100 100 0)
     (toWorldSpace unitBox (base.mkPoint 10 10)) = false) /\
  updateEntity (room 100 100 0) e =
    Some (mkEntity (Some (setVelocityY rester f32.one))
            (Some (base.mkPoint 10 11)) (Some unitBox) true false).
Proof.
  cbv zeta. split; [split; [repeat split | reflexivity]|].
  apply (airborne_entity_starts_falling (room 100 100 0)
           (activeEntity rester (base.mkPoint 10 10) true)
           rester (base.mkPoint 10 10) unitBox).
  - repeat split.
  - reflexivity.
  - reflexivity.
  - reflexivity.
  - reflexivity.
Defined.

(** X8: an entity at rest that is not gravity-affected is left as it is
    by a tick, whatever the oracle reports (also in mid-air), with
    CollidedWithWorld absent. *)
Theorem weightless_entity_at_rest_unmoved (cc : CollisionChecker)
    (e : Entity) (ph : Physical) (pos : WorldPosition) (rect : BoundingBox) :
  processed e ph pos rect ->
  mGravityAffected ph = false ->
  f32.eqb (base.x (mVelocity ph)) f32.zero = true ->
  f32.eqb (base.y (mVelocity ph)) f32.zero = true ->
  updateEntity cc e =
    Some (mkEntity (Some ph) (Some pos) (Some rect) true false).
Proof.
  intros (Hph & Hpos & Hrect & Hact) Hgrav Hvx Hvy.
  unfold updateEntity. rewrite Hph, Hpos, Hrect, Hact.
  assert (Hbody : updateBody cc ph pos rect = Some (ph, pos, false)).
  { apply updateBody_Some. exists 0, 0. cbv zeta.
    change (horizontalStage cc ph pos rect 0) with pos.
    assert (Hg : gravityStage cc ph (toWorldSpace rect pos) = ph)
      by (unfold gravityStage; rewrite Hgrav; reflexivity).
    rewrite Hg. split; [apply to_int16_zero; assumption|].
    split; [apply to_int16_zero; assumption|].
    split; [reflexivity|].
    symmetry. unfold base.neqb. apply negb_false_iff, base_eqb_eq.
    destruct pos as [px py]. unfold base.add; simpl. f_equal; lia. }
  rewrite Hbody. reflexivity.
Qed.

Lemma weightless_entity_at_rest_unmoved_witness :
  let ph := mkPhysical (base.mkPoint f32.zero (S754_zero true)) false true in
  let e := activeEntity ph (base.mkPoint 10 10) true in
  processed e ph (base.mkPoint 10 10) unitBox /\
  updateEntity (room 100 100 0) e =
    Some (mkEntity (Some ph) (Some (base.mkPoint 10 10)) (Some unitBox)
            true false).
Proof.
  cbv zeta. split; [repeat split|].
  apply (weightless_entity_at_rest_unmoved (room 100 100 0)
           (activeEntity
              (mkPhysical (base.mkPoint f32.zero (S754_zero true)) false true)
              (base.mkPoint 10 10) true)
           (mkPhysical (base.mkPoint f32.zero (S754_zero true)) false true)
           (base.mkPoint 10 10) unitBox).
  - repeat split.
  - reflexivity.
  - reflexivity.
  - reflexivity.
Defined.

(** X9: when an entity moves down and some box within its stepsY pixels
    reports solid ground, the tick ends with velocity.y 0.0 and with
    CollidedWithWorld set. *)
Theorem landing_stops_fall_and_flags_collision (cc : CollisionChecker)
    (ph : Physical) (pos : WorldPosition) (rect : BoundingBox)
    (ph' : Physical) (pos' : WorldPosition) (c : bool)
    (stepsX stepsY : Z) (k : nat) :
  updateBody cc ph pos rect = Some (ph', pos', c) ->
  f32.to_int16 (base.x (mVelocity ph)) = Some stepsX ->
  let bbox := toWorldSpace rect (horizontalStage cc ph pos rect stepsX) in
  f32.to_int16 (velocityAfterGravity cc ph bbox) = Some stepsY ->
  Z.of_nat k < stepsY ->
  isOnSolidGround cc (base.moveY bbox (Z.of_nat k)) = true ->
  base.y (mVelocity ph') = f32.zero /\ c = true.
Proof.
  intros Hbody Hx bbox Hy Hk Hhit.
  apply updateBody_Some in Hbody.
  destruct Hbody as (mx & my & Hx' & Hy' & Hv & ->). cbv zeta in *.
  rewrite Hx in Hx'. injection Hx' as <-.
  rewrite gravityStage_velocity in Hy'. fold bbox in Hy', Hv.
  rewrite Hy in Hy'. injection Hy' as <-.
  set (pos1 := horizontalStage cc ph pos rect stepsX) in *.
  pose proof (horizontalStage_bounds cc ph pos rect stepsX) as Hh.
  cbv zeta in Hh. fold pos1 in Hh.
  unfold verticalStage in Hv.
  replace (negb (stepsY =? 0)) with true in Hv
    by (symmetry; apply negb_true_iff, Z.eqb_neq; lia).
  unfold applyVerticalMovement in Hv.
  replace (0 <? stepsY) with true in Hv by (symmetry; apply Z.ltb_lt; lia).
  set (n := Z.to_nat (Z.abs stepsY)) in *.
  set (fl := mGravityAffected (gravityStage cc ph bbox)) in *.
  set (v := base.y (mVelocity (gravityStage cc ph bbox))) in *.
  destruct (verticalLoop_path cc true fl v n bbox pos1)
    as (k' & Hk' & _ & Hclear & Hstop).
  assert (Hkk : (k' <= k)%nat).
  { destruct (Nat.le_gt_cases k' k) as [Hle|Hgt]; [exact Hle|].
    specialize (Hclear k Hgt). simpl in Hclear.
    rewrite Z.mul_1_r in Hclear. rewrite Hclear in Hhit. discriminate. }
  assert (Hlt : (k' < n)%nat) by (unfold n; lia).
  rewrite (verticalLoop_contact cc true fl v k' n bbox pos1 Hlt Hclear
             (Hstop Hlt)) in Hv.
  injection Hv as <- <-. simpl. split; [reflexivity|].
  apply base_neqb_true. unfold base.add, base.stepY. simpl.
  intros Heq. injection Heq as _ Hyy. lia.
Qed.

Lemma landing_stops_fall_and_flags_collision_witness :
  let ph := setVelocityY rester f32.two in
  updateBody (room 100 12 0) ph (base.mkPoint 10 10) unitBox
    = Some (setVelocityY rester f32.zero, base.mkPoint 10 11, true) /\
  base.y (mVelocity (setVelocityY rester f32.zero)) = f32.zero /\
  true = true.
Proof.
  cbv zeta. split; [reflexivity|].
  apply (landing_stops_fall_and_flags_collision (room 100 12 0)
           (setVelocityY rester f32.two) (base.mkPoint 10 10) unitBox
           (setVelocityY rester f32.zero) (base.mkPoint 10 11) true
           0 2 1%nat).
  - reflexivity.
  - reflexivity.
  - reflexivity.
  - simpl. lia.
  - reflexivity.
Defined.

(** X10: a tick in which the horizontal movement climbed at least one
    stair-step, while the entity does not move up (stepsY >= 0), sets
    CollidedWithWorld, even when no movement was cut short. *)
Theorem stair_step_flags_collision (cc : CollisionChecker)
    (ph : Physical) (pos : WorldPosition) (rect : BoundingBox)
    (ph' : Physical) (pos' : WorldPosition) (c : bool)
    (stepsX stepsY : Z) :
  updateBody cc ph pos rect = Some (ph', pos', c) ->
  f32.to_int16 (base.x (mVelocity ph)) = Some stepsX ->
  let pos1 := horizontalStage cc ph pos rect stepsX in
  f32.to_int16 (velocityAfterGravity cc ph (toWorldSpace rect pos1))
    = Some stepsY ->
  base.y pos1 < base.y pos ->
  0 <= stepsY ->
  c = true.
Proof.
  intros Hbody Hx pos1 Hy Hup Hdown.
  apply updateBody_Some in Hbody.
  destruct Hbody as (mx & my & Hx' & Hy' & Hv & ->). cbv zeta in *.
  rewrite Hx in Hx'. injection Hx' as <-.
  rewrite gravityStage_velocity in Hy'. fold pos1 in Hy', Hv.
  rewrite Hy in Hy'. injection Hy' as <-.
  destruct (verticalStage_position cc
              (gravityStage cc ph (toWorldSpace rect pos1)) pos1
              (toWorldSpace rect pos1) stepsY) as (k & Hk & Hpos & _).
  rewrite Hv in Hpos. simpl in Hpos. subst pos'.
  apply base_neqb_true. unfold base.add, base.stepY. simpl.
  intros Heq. injection Heq as _ Hyy.
  destruct (Z.sgn_spec stepsY) as [[? Hs]|[[? Hs]|[? Hs]]];
    rewrite Hs in Hyy; lia.
Qed.

Lemma stair_step_flags_collision_witness :
  let ph := mkPhysical (base.mkPoint (f32.of_Z 3) f32.zero) true true in
  updateBody stairs ph (base.mkPoint 12 10) unitBox
    = Some (ph, base.mkPoint 15 9, true) /\
  base.y (horizontalStage stairs ph (base.mkPoint 12 10) unitBox 3) < 10 /\
  true = true.
Proof.
  cbv zeta. split; [reflexivity|]. split; [reflexivity|].
  apply (stair_step_flags_collision stairs
           (mkPhysical (base.mkPoint (f32.of_Z 3) f32.zero) true true)
           (base.mkPoint 12 10) unitBox
           (mkPhysical (base.mkPoint (f32.of_Z 3) f32.zero) true true)
           (base.mkPoint 15 9) true 3 0).
  - reflexivity.
  - reflexivity.
  - reflexivity.
  - reflexivity.
  - lia.
Defined.

(** ** Order of processing *)




(** ** The vertical step count of a falling entity *)

Lemma binary_round_notNegative (mx : positive) (ex : Z) :
  notNegative (binary_round f32.prec f32.emax false mx ex).
Proof.
  unfold binary_round.
  destruct (shl_align mx ex _) as [mz ez]. unfold binary_round_aux.
  pose proof (shr_fexp_exact (Zpos mz) ez ltac:(lia)) as H1. cbv zeta in H1.
  destruct (shr_fexp f32.prec f32.emax (Zpos mz) ez loc_Exact) as [mrs1 e1].
  simpl fst in H1. destruct H1 as (_ & _ & Hn1).
  pose proof (round_nearest_even_bounds (shr_m mrs1) (loc_of_shr_record mrs1))
    as Hrne.
  set (m2 := round_nearest_even (shr_m mrs1) (loc_of_shr_record mrs1)) in *.
  pose proof (shr_fexp_exact m2 e1 ltac:(lia)) as H2. cbv zeta in H2.
  destruct (shr_fexp f32.prec f32.emax m2 e1 loc_Exact) as [mrs2 e2].
  simpl fst in H2. destruct H2 as (_ & _ & Hn2).
  destruct (shr_m mrs2) as [|m|m]; [exact I | | lia].
  destruct (e2 <=? f32.emax - f32.prec); exact I.
Qed.

Lemma add_c0_56_notNegative (m : positive) (e : Z) :
  notNegative (f32.add (S754_finite false m e) f32.c0_56).
Proof.
  unfold f32.add, f32.c0_56, SFadd.
  set (ez := Z.min e (-24)).
  change (cond_Zopp false ?a) with a.
  destruct (Zpos _ + Zpos _) as [|z|z] eqn:Hz; [exact I | | lia].
  apply binary_round_notNegative.
Qed.

Lemma to_int16_small (r : f32.float) :
  atMost 10737418 (-22) r -> notNegative r ->
  exists t : Z, f32.to_int16 r = Some t /\ 0 <= t <= 2.
Proof.
  intros Hat Hnn.
  assert (Ht : exists t, f32.trunc r = Some t /\ 0 <= t).
  { destruct r as [s|[|]| |[|] m e]; simpl in Hnn; try contradiction.
    - exists 0. split; [reflexivity | lia].
    - discriminate Hat.
    - eexists. split; [reflexivity|]. simpl cond_Zopp.
      destruct e as [|k|k].
      + apply Z.shiftl_nonneg. lia.
      + apply Z.shiftl_nonneg. lia.
      + apply Z.shiftr_nonneg. lia. }
  destruct Ht as (t & Ht & H0).
  pose proof (atMost_trunc r t Hat Ht) as H2.
  exists t. split; [|lia].
  unfold f32.to_int16. rewrite Ht.
  replace (-32768 <=? t) with true by (symmetry; apply Z.leb_le; lia).
  replace (t <=? 32767) with true by (symmetry; apply Z.leb_le; lia).
  reflexivity.
Qed.

Lemma applyGravity_atMost (cc : CollisionChecker) (bbox : BoundingBox)
    (v : f32.float) :
  f32.valid v = true ->
  atMost 10737418 (-22) (applyGravity cc bbox v).
Proof.
  intros Hvalid. unfold applyGravity.
  destruct (f32.eqb v f32.zero) eqn:Hz.
  - apply f32_eqb_zero in Hz as [s ->].
    destruct (isOnSolidGround cc bbox); [exact I|].
    simpl. split; [lia|]. vm_compute. discriminate.
  - destruct (f32.ltb v f32.two) eqn:Hlt.
    + apply add_c0_56_atMost; assumption.
    + simpl. split; [lia|]. vm_compute. discriminate.
Qed.

(** X12: for a binary32 velocity that is not below zero (and not NaN),
    the cast of the gravity model's result to [int16_t] is defined, and the
    vertical step count is between 0 and 2. *)
Theorem falling_step_count_defined (cc : CollisionChecker)
    (bbox : BoundingBox) (v : f32.float) :
  f32.valid v = true ->
  f32.leb f32.zero v = true ->
  exists stepsY : Z,
    f32.to_int16 (applyGravity cc bbox v) = Some stepsY /\
    0 <= stepsY <= 2.
Proof.
  intros Hvalid Hpos. apply to_int16_small.
  - apply applyGravity_atMost. exact Hvalid.
  - unfold applyGravity.
    destruct v as [s|[|]| |[|] m e]; try discriminate Hpos.
    + destruct (isOnSolidGround cc bbox); exact I.
    + exact I.
    + change (f32.eqb (S754_finite false m e) f32.zero) with false.
      cbv iota.
      destruct (f32.ltb (S754_finite false m e) f32.two);
        [apply add_c0_56_notNegative | exact I].
Qed.

Lemma falling_step_count_defined_witness :
  let v := S754_finite false 13086228 (-23) in
  (f32.valid v = true /\ f32.leb f32.zero v = true) /\
  exists stepsY : Z,
    f32.to_int16 (applyGravity (room 100 100 0) unitBox v) = Some stepsY /\
    0 <= stepsY <= 2.
Proof.
  cbv zeta. split; [split; reflexivity|].
  apply (falling_step_count_defined (room 100 100 0) unitBox
           (S754_finite false 13086228 (-23))); reflexivity.
Defined.

Lemma verticalLoop_velocity (cc : CollisionChecker) (down flag : bool)
    (v : f32.float) (n : nat) (b : BoundingBox) (p : base.Vector) :
  snd (verticalLoop cc down flag v n b p) = v \/
  snd (verticalLoop cc down flag v n b p) = contactVelocity down flag.
Proof.
  destruct (verticalLoop_path cc down flag v n b p)
    as (k & Hk & _ & Hclear & Hstop).
  destruct (Nat.eq_dec k n) as [->|Hne].
  - left. rewrite (verticalLoop_clear cc down flag v n b p Hclear).
    reflexivity.
  - right.
    rewrite (verticalLoop_contact cc down flag v k n b p);
      [reflexivity | lia | exact Hclear | apply Hstop; lia].
Qed.

(** X13: after a tick of a gravity-affected entity whose velocity.y was
    a binary32 value, velocity.y is at most 2.0f + 0.56f, whichever of the
    gravity model and the vertical resolver set it last. *)
Theorem velocity_after_tick_bounded (cc : CollisionChecker)
    (ph : Physical) (pos : WorldPosition) (rect : BoundingBox)
    (ph' : Physical) (pos' : WorldPosition) (c : bool) :
  updateBody cc ph pos rect = Some (ph', pos', c) ->
  mGravityAffected ph = true ->
  f32.valid (base.y (mVelocity ph)) = true ->
  f32.leb (base.y (mVelocity ph')) maxGravityVelocity = true.
Proof.
  intros Hbody Hgrav Hvalid.
  apply updateBody_Some in Hbody.
  destruct Hbody as (mx & my & _ & _ & Hv & _). cbv zeta in Hv.
  set (bbox := toWorldSpace rect (horizontalStage cc ph pos rect mx)) in *.
  apply (atMost_leb 10737418 (-22)).
  assert (Hg : atMost 10737418 (-22)
                 (base.y (mVelocity (gravityStage cc ph bbox)))).
  { rewrite gravityStage_velocity. unfold velocityAfterGravity.
    rewrite Hgrav. apply applyGravity_atMost. exact Hvalid. }
  unfold verticalStage in Hv.
  destruct (negb (my =? 0)).
  - unfold applyVerticalMovement in Hv.
    pose proof (verticalLoop_velocity cc (0 <? my)
                  (mGravityAffected (gravityStage cc ph bbox))
                  (base.y (mVelocity (gravityStage cc ph bbox)))
                  (Z.to_nat (Z.abs my)) bbox
                  (horizontalStage cc ph pos rect mx)) as Hvel.
    destruct (verticalLoop _ _ _ _ _ _ _) as [p v].
    injection Hv as _ <-. simpl in *.
    destruct Hvel as [->| ->]; [exact Hg|].
    unfold contactVelocity.
    destruct (_ || _); simpl; [exact I|].
    split; [lia|]. vm_compute. discriminate.
  - injection Hv as _ <-. exact Hg.
Qed.

Lemma velocity_after_tick_bounded_witness :
  let ph := setVelocityY rester (S754_finite false 13086228 (-23)) in
  let ph' := setVelocityY rester (S754_finite false 8891924 (-22)) in
  (updateBody (room 100 100 0) ph (base.mkPoint 10 10) unitBox
     = Some (ph', base.mkPoint 10 12, false) /\
   f32.valid (base.y (mVelocity ph)) = true) /\
  f32.leb (base.y (mVelocity ph')) maxGravityVelocity = true.
Proof.
  cbv zeta. split; [split; reflexivity|].
  apply (velocity_after_tick_bounded (room 100 100 0)
           (setVelocityY rester (S754_finite false 13086228 (-23)))
           (base.mkPoint 10 10) unitBox
           (setVelocityY rester (S754_finite false 8891924 (-22)))
           (base.mkPoint 10 12) false); reflexivity.
Defined.
